(** * Session manager of the vending machine (src/lib/vendingState.ts)

    Shallow embedding of the converged variant of [vendingState.ts] (the
    first module of the file, lines 1-255).  The module-level mutable
    [store] and the module-level [pausedTimeRemaining] are fields of a
    [World]; every exported function is a computation in a small
    reader/state monad [M] whose reader argument is the value of
    [Date.now()] during the (synchronous) call.

    - Times and durations are integers of milliseconds ([Z]).
    - [generateSessionId] is modelled as an unbounded counter [idSeed]:
      the random token of the source is only ever compared for equality,
      and the counter gives every generated id a value never issued before.
    - [setTimeout] inserts a callback in a queue ordered by due time (FIFO
      for equal due times), as the JS event loop fires timers.
    - The [console.log] placeholder of the physical dispense appends the
      occupant's name to [dispenseLog]. *)

From Stdlib Require Import ZArith Ascii String List Bool Lia.
Import ListNotations.
Open Scope Z_scope.

(** ** Data model *)

Inductive VendingStateType :=
| IDLE | CHATTING | PAYMENT_PENDING | DISPENSING | DONE.

Definition state_eqb (a b : VendingStateType) : bool :=
  match a, b with
  | IDLE, IDLE | CHATTING, CHATTING | PAYMENT_PENDING, PAYMENT_PENDING
  | DISPENSING, DISPENSING | DONE, DONE => true
  | _, _ => false
  end.

Record PaymentInfo := mkPaymentInfo {
  preferenceId : option string;
  qrCodeUrl : option string;
  qrCodeDataUrl : option string;
  amount : option Z;
  description : option string;
  createdAt : option Z;
  paymentExpiresAt : option Z
}.

(** The all-null payment record written by [resetToIdle] and
    [clearPaymentInfo] and held by the initial store. *)
Definition emptyPaymentInfo : PaymentInfo :=
  mkPaymentInfo None None None None None None None.

Definition SessionId := nat.

Record VendingStore := mkStore {
  state : VendingStateType;
  sessionId : SessionId;
  lockedByName : option string;
  updatedAt : Z;
  chatExpiresAt : option Z;
  paymentInfo : PaymentInfo
}.

(** Field assignments [store.f = v]. *)
Definition set_state (v : VendingStateType) (s : VendingStore) : VendingStore :=
  mkStore v (sessionId s) (lockedByName s) (updatedAt s) (chatExpiresAt s) (paymentInfo s).
Definition set_sessionId (v : SessionId) (s : VendingStore) : VendingStore :=
  mkStore (state s) v (lockedByName s) (updatedAt s) (chatExpiresAt s) (paymentInfo s).
Definition set_lockedByName (v : option string) (s : VendingStore) : VendingStore :=
  mkStore (state s) (sessionId s) v (updatedAt s) (chatExpiresAt s) (paymentInfo s).
Definition set_updatedAt (v : Z) (s : VendingStore) : VendingStore :=
  mkStore (state s) (sessionId s) (lockedByName s) v (chatExpiresAt s) (paymentInfo s).
Definition set_chatExpiresAt (v : option Z) (s : VendingStore) : VendingStore :=
  mkStore (state s) (sessionId s) (lockedByName s) (updatedAt s) v (paymentInfo s).
Definition set_paymentInfo (v : PaymentInfo) (s : VendingStore) : VendingStore :=
  mkStore (state s) (sessionId s) (lockedByName s) (updatedAt s) (chatExpiresAt s) v.

Definition CHAT_TTL_MS : Z := 60000.
Definition PAYMENT_TTL_MS : Z := 60000.

(** Callbacks registered by [dispense] with [setTimeout]. *)
Inductive TimerCallback :=
| AdvanceToDone      (* store.state = "DONE"; touch(); setTimeout(resetToIdle, 2000) *)
| ResetAfterDone.    (* resetToIdle() *)

Record Timer := mkTimer { due : Z; callback : TimerCallback }.

Fixpoint insertTimer (tm : Timer) (l : list Timer) : list Timer :=
  match l with
  | [] => [tm]
  | x :: r => if due x <=? due tm then x :: insertTimer tm r else tm :: l
  end.

Record World := mkWorld {
  store : VendingStore;
  pausedTimeRemaining : option Z;
  idSeed : nat;
  timers : list Timer;
  dispenseLog : list (option string)
}.

Definition set_store (v : VendingStore) (w : World) : World :=
  mkWorld v (pausedTimeRemaining w) (idSeed w) (timers w) (dispenseLog w).
Definition set_paused (v : option Z) (w : World) : World :=
  mkWorld (store w) v (idSeed w) (timers w) (dispenseLog w).
Definition set_idSeed (v : nat) (w : World) : World :=
  mkWorld (store w) (pausedTimeRemaining w) v (timers w) (dispenseLog w).
Definition set_timers (v : list Timer) (w : World) : World :=
  mkWorld (store w) (pausedTimeRemaining w) (idSeed w) v (dispenseLog w).
Definition set_dispenseLog (v : list (option string)) (w : World) : World :=
  mkWorld (store w) (pausedTimeRemaining w) (idSeed w) (timers w) v.

(** Process start: [store] as initialised at module load, at time [t0]. *)
Definition initWorld (t0 : Z) : World :=
  mkWorld (mkStore IDLE 0%nat None t0 None emptyPaymentInfo) None 1%nat [] [].

(** ** The monad: [Date.now()] as reader, the module state as state *)

Definition M (A : Type) : Type := Z -> World -> A * World.

Definition ret {A : Type} (a : A) : M A := fun _ w => (a, w).
Definition bind {A B : Type} (m : M A) (k : A -> M B) : M B :=
  fun t w => let (a, w') := m t w in k a t w'.

Declare Scope vending_scope.
Delimit Scope vending_scope with vending.
Notation "x <- m ;; k" := (bind m (fun x => k))
  (at level 100, m at next level, k at level 200, right associativity) : vending_scope.
Notation "m ;; k" := (bind m (fun _ => k))
  (at level 100, k at level 200, right associativity) : vending_scope.
Open Scope vending_scope.

Definition now : M Z := fun t w => (t, w).
Definition getStore : M VendingStore := fun _ w => (store w, w).
Definition modifyStore (f : VendingStore -> VendingStore) : M unit :=
  fun _ w => (tt, set_store (f (store w)) w).
Definition getPaused : M (option Z) := fun _ w => (pausedTimeRemaining w, w).
Definition setPaused (v : option Z) : M unit := fun _ w => (tt, set_paused v w).
Definition setTimeout (cb : TimerCallback) (delay : Z) : M unit :=
  fun t w => (tt, set_timers (insertTimer (mkTimer (t + delay) cb) (timers w)) w).
Definition logDispense (who : option string) : M unit :=
  fun _ w => (tt, set_dispenseLog (dispenseLog w ++ [who]) w).

(** [generateSessionId()]: a token never issued before. *)
Definition generateSessionId : M SessionId :=
  fun _ w => (idSeed w, set_idSeed (S (idSeed w)) w).

(** ** Operations *)

(** Guard failures, with the information carried by their messages. *)
Inductive Failure :=
| Busy (s : VendingStateType)          (* "Machine is busy in state ${state}" *)
| InvalidSession                       (* "Invalid or expired QR. Please rescan." *)
| WrongSession                         (* "Wrong session" *)
| InvalidState (s : VendingStateType). (* "Cannot ... from ${state}" *)

Inductive Result (A : Type) :=
| Ok (a : A)
| Err (f : Failure).
Arguments Ok {A} a.
Arguments Err {A} f.

Definition isOk {A : Type} (r : Result A) : bool :=
  match r with Ok _ => true | Err _ => false end.

Definition touch : M unit :=
  t <- now ;; modifyStore (set_updatedAt t).

Definition resetToIdle : M unit :=
  modifyStore (set_state IDLE) ;;
  modifyStore (set_lockedByName None) ;;
  sid <- generateSessionId ;;
  modifyStore (set_sessionId sid) ;;
  modifyStore (set_chatExpiresAt None) ;;
  modifyStore (set_paymentInfo emptyPaymentInfo) ;;
  touch.

(** [now >= deadline] for a non-null deadline. *)
Definition deadlinePassed (t : Z) (d : option Z) : bool :=
  match d with Some x => x <=? t | None => false end.

Definition expireIfNeeded : M unit :=
  t <- now ;;
  s <- getStore ;;
  if state_eqb (state s) CHATTING && deadlinePassed t (chatExpiresAt s) then resetToIdle
  else if state_eqb (state s) PAYMENT_PENDING
          && deadlinePassed t (paymentExpiresAt (paymentInfo s)) then resetToIdle
  else if state_eqb (state s) CHATTING
          && deadlinePassed t (paymentExpiresAt (paymentInfo s)) then resetToIdle
  else ret tt.

(** [{ ...store }] *)
Definition getSnapshot : M VendingStore :=
  expireIfNeeded ;; getStore.

Definition ensureIdleSession : M SessionId :=
  s <- getStore ;; ret (sessionId s).

Definition regenerateSessionIfIdle : M SessionId :=
  s <- getStore ;;
  (if state_eqb (state s) IDLE then
     sid <- generateSessionId ;; modifyStore (set_sessionId sid) ;; touch
   else ret tt) ;;
  s' <- getStore ;; ret (sessionId s').

Definition claim (sid : SessionId) (userName : string) : M (Result unit) :=
  expireIfNeeded ;;
  s <- getStore ;;
  if negb (state_eqb (state s) IDLE) then ret (Err (Busy (state s)))
  else if negb (Nat.eqb sid (sessionId s)) then ret (Err InvalidSession)
  else
    modifyStore (set_state CHATTING) ;;
    modifyStore (set_lockedByName (Some userName)) ;;
    t <- now ;;
    modifyStore (set_chatExpiresAt (Some (t + CHAT_TTL_MS))) ;;
    touch ;;
    ret (Ok tt).

Definition cancel (sid : SessionId) : M (Result unit) :=
  expireIfNeeded ;;
  s <- getStore ;;
  if negb (Nat.eqb sid (sessionId s)) then ret (Err WrongSession)
  else if state_eqb (state s) IDLE then ret (Ok tt)
  else
    modifyStore (set_state IDLE) ;;
    modifyStore (set_lockedByName None) ;;
    sid' <- generateSessionId ;;
    modifyStore (set_sessionId sid') ;;
    modifyStore (set_chatExpiresAt None) ;;
    touch ;;
    ret (Ok tt).

Definition dispense (sid : SessionId) : M (Result unit) :=
  expireIfNeeded ;;
  s <- getStore ;;
  if negb (Nat.eqb sid (sessionId s)) then ret (Err WrongSession)
  else if negb (state_eqb (state s) CHATTING) then ret (Err (InvalidState (state s)))
  else
    modifyStore (set_state DISPENSING) ;;
    logDispense (lockedByName s) ;;
    touch ;;
    setTimeout AdvanceToDone 1000 ;;
    ret (Ok tt).

Definition markDone (sid : SessionId) : M (Result unit) :=
  expireIfNeeded ;;
  s <- getStore ;;
  if negb (Nat.eqb sid (sessionId s)) then ret (Err WrongSession)
  else if negb (state_eqb (state s) DISPENSING) then ret (Err (InvalidState (state s)))
  else
    modifyStore (set_state DONE) ;;
    touch ;;
    ret (Ok tt).

Definition canSendChat (sid : SessionId) : M (Result unit) :=
  expireIfNeeded ;;
  s <- getStore ;;
  if negb (Nat.eqb sid (sessionId s)) then ret (Err WrongSession)
  else if negb (state_eqb (state s) CHATTING) then ret (Err (InvalidState (state s)))
  else ret (Ok tt).

Definition pauseChatTimer (sid : SessionId) : M (Result unit) :=
  s <- getStore ;;
  if negb (Nat.eqb sid (sessionId s)) then ret (Err WrongSession)
  else if negb (state_eqb (state s) CHATTING) then ret (Err (InvalidState (state s)))
  else
    (match chatExpiresAt s with
     | Some d =>
         t <- now ;;
         setPaused (Some (Z.max 0 (d - t))) ;;
         modifyStore (set_chatExpiresAt None)
     | None => ret tt
     end) ;;
    ret (Ok tt).

Definition resumeChatTimer (sid : SessionId) : M (Result unit) :=
  s <- getStore ;;
  if negb (Nat.eqb sid (sessionId s)) then ret (Err WrongSession)
  else if negb (state_eqb (state s) CHATTING) then ret (Err (InvalidState (state s)))
  else
    p <- getPaused ;;
    (match p with
     | Some r =>
         t <- now ;;
         modifyStore (set_chatExpiresAt (Some (t + r))) ;;
         setPaused None
     | None => ret tt
     end) ;;
    ret (Ok tt).

(** [{ ...paymentInfo, createdAt: Date.now(), paymentExpiresAt: Date.now() + PAYMENT_TTL_MS }] *)
Definition stampPaymentInfo (info : PaymentInfo) (t : Z) : PaymentInfo :=
  mkPaymentInfo (preferenceId info) (qrCodeUrl info) (qrCodeDataUrl info)
    (amount info) (description info) (Some t) (Some (t + PAYMENT_TTL_MS)).

Definition setPaymentInfo (sid : SessionId) (info : PaymentInfo) : M (Result unit) :=
  s <- getStore ;;
  if negb (Nat.eqb sid (sessionId s)) then ret (Err WrongSession)
  else if negb (state_eqb (state s) CHATTING) then ret (Err (InvalidState (state s)))
  else
    t <- now ;;
    modifyStore (set_paymentInfo (stampPaymentInfo info t)) ;;
    touch ;;
    ret (Ok tt).

Definition clearPaymentInfo (sid : SessionId) : M (Result unit) :=
  s <- getStore ;;
  if negb (Nat.eqb sid (sessionId s)) then ret (Err WrongSession)
  else
    modifyStore (set_paymentInfo emptyPaymentInfo) ;;
    touch ;;
    ret (Ok tt).

Definition getPaymentInfo (sid : SessionId) : M (Result PaymentInfo) :=
  s <- getStore ;;
  if negb (Nat.eqb sid (sessionId s)) then ret (Err WrongSession)
  else ret (Ok (paymentInfo s)).

Definition transitionToChatting (sid : SessionId) : M (Result unit) :=
  s <- getStore ;;
  if negb (Nat.eqb sid (sessionId s)) then ret (Err WrongSession)
  else if negb (state_eqb (state s) PAYMENT_PENDING) then ret (Err (InvalidState (state s)))
  else
    modifyStore (set_state CHATTING) ;;
    resumeChatTimer sid ;;
    touch ;;
    ret (Ok tt).

Definition resumeChatTimerAfterPayment (sid : SessionId) : M (Result unit) :=
  s <- getStore ;;
  if negb (Nat.eqb sid (sessionId s)) then ret (Err WrongSession)
  else if negb (state_eqb (state s) CHATTING) then ret (Err (InvalidState (state s)))
  else
    resumeChatTimer sid ;;
    ret (Ok tt).

(** ** Timer callbacks and the event loop *)

Definition fireCallback (cb : TimerCallback) : M unit :=
  match cb with
  | AdvanceToDone =>
      modifyStore (set_state DONE) ;;
      touch ;;
      setTimeout ResetAfterDone 2000
  | ResetAfterDone => resetToIdle
  end.

(** Fire the earliest pending timer if it is due. *)
Definition runDueTimer : M bool :=
  fun t w =>
    match timers w with
    | tm :: rest =>
        if due tm <=? t then
          let (_, w') := fireCallback (callback tm) t (set_timers rest w) in (true, w')
        else (false, w)
    | [] => (false, w)
    end.

(** Every exported function of the module. *)
Inductive Op :=
| OGetSnapshot
| OEnsureIdleSession
| ORegenerateSessionIfIdle
| OClaim (sid : SessionId) (userName : string)
| OCancel (sid : SessionId)
| ODispense (sid : SessionId)
| OMarkDone (sid : SessionId)
| OResetToIdle
| OCanSendChat (sid : SessionId)
| OPauseChatTimer (sid : SessionId)
| OResumeChatTimer (sid : SessionId)
| OSetPaymentInfo (sid : SessionId) (info : PaymentInfo)
| OClearPaymentInfo (sid : SessionId)
| OGetPaymentInfo (sid : SessionId)
| OTransitionToChatting (sid : SessionId)
| OResumeChatTimerAfterPayment (sid : SessionId).

Inductive Reply :=
| RSnapshot (s : VendingStore)
| RSessionId (n : SessionId)
| RUnit
| RResult (r : Result unit)
| RPaymentInfo (r : Result PaymentInfo).

Definition runOp (o : Op) : M Reply :=
  match o with
  | OGetSnapshot => s <- getSnapshot ;; ret (RSnapshot s)
  | OEnsureIdleSession => n <- ensureIdleSession ;; ret (RSessionId n)
  | ORegenerateSessionIfIdle => n <- regenerateSessionIfIdle ;; ret (RSessionId n)
  | OClaim sid name => r <- claim sid name ;; ret (RResult r)
  | OCancel sid => r <- cancel sid ;; ret (RResult r)
  | ODispense sid => r <- dispense sid ;; ret (RResult r)
  | OMarkDone sid => r <- markDone sid ;; ret (RResult r)
  | OResetToIdle => resetToIdle ;; ret RUnit
  | OCanSendChat sid => r <- canSendChat sid ;; ret (RResult r)
  | OPauseChatTimer sid => r <- pauseChatTimer sid ;; ret (RResult r)
  | OResumeChatTimer sid => r <- resumeChatTimer sid ;; ret (RResult r)
  | OSetPaymentInfo sid info => r <- setPaymentInfo sid info ;; ret (RResult r)
  | OClearPaymentInfo sid => r <- clearPaymentInfo sid ;; ret (RResult r)
  | OGetPaymentInfo sid => r <- getPaymentInfo sid ;; ret (RPaymentInfo r)
  | OTransitionToChatting sid => r <- transitionToChatting sid ;; ret (RResult r)
  | OResumeChatTimerAfterPayment sid => r <- resumeChatTimerAfterPayment sid ;; ret (RResult r)
  end.

(** An input to the module: an exported call or a timer firing. *)
Inductive Event :=
| Call (o : Op)
| TimerTick.

Definition runEvent (e : Event) : M unit :=
  match e with
  | Call o => _ <- runOp o ;; ret tt
  | TimerTick => _ <- runDueTimer ;; ret tt
  end.

Inductive reachable : World -> Prop :=
| reach_init (t0 : Z) : reachable (initWorld t0)
| reach_step (w : World) (e : Event) (t : Z) :
    reachable w -> reachable (snd (runEvent e t w)).

(** Runs a trace of timed events. *)
Fixpoint runTrace (tr : list (Z * Event)) (w : World) : World :=
  match tr with
  | [] => w
  | (t, e) :: rest => runTrace rest (snd (runEvent e t w))
  end.

(** The session id presented by a call, if the function takes one. *)
Definition opSessionId (o : Op) : option SessionId :=
  match o with
  | OClaim sid _ | OCancel sid | ODispense sid | OMarkDone sid | OCanSendChat sid
  | OPauseChatTimer sid | OResumeChatTimer sid | OSetPaymentInfo sid _
  | OClearPaymentInfo sid | OGetPaymentInfo sid | OTransitionToChatting sid
  | OResumeChatTimerAfterPayment sid => Some sid
  | _ => None
  end.

(** Whether the function starts with [expireIfNeeded()]. *)
Definition opChecksExpiry (o : Op) : bool :=
  match o with
  | OGetSnapshot | OClaim _ _ | OCancel _ | ODispense _ | OMarkDone _ | OCanSendChat _ => true
  | _ => false
  end.

(** The three expiry conditions tested by [expireIfNeeded]. *)
Definition isExpired (t : Z) (s : VendingStore) : bool :=
  (state_eqb (state s) CHATTING && deadlinePassed t (chatExpiresAt s))
  || (state_eqb (state s) PAYMENT_PENDING && deadlinePassed t (paymentExpiresAt (paymentInfo s)))
  || (state_eqb (state s) CHATTING && deadlinePassed t (paymentExpiresAt (paymentInfo s))).

(** The world left by [expireIfNeeded] at time [t]. *)
Definition afterExpiry (t : Z) (w : World) : World := snd (expireIfNeeded t w).

(** The failure a call reports when its session id is not the store's. *)
Definition expectedWrongIdFailure (o : Op) (s : VendingStore) : Failure :=
  match o with
  | OClaim _ _ => if state_eqb (state s) IDLE then InvalidSession else Busy (state s)
  | _ => WrongSession
  end.

Definition replyFailure (r : Reply) : option Failure :=
  match r with
  | RResult (Err f) | RPaymentInfo (Err f) => Some f
  | _ => None
  end.

(** Whether the session id held in the store is below the id counter,
    i.e. was issued by [generateSessionId] (or at module load). *)
Definition idIssued (n : SessionId) (w : World) : Prop := (n < idSeed w)%nat.

(** ** Scenarios and the claims as the spec states them *)

(** The id presented by a call was issued before the call (ids are
    unguessable tokens, so a client can only present an id it was shown). *)
Definition presentedIdIssued (e : Event) (w : World) : Prop :=
  match e with
  | Call o => match opSessionId o with Some x => (x < idSeed w)%nat | None => True end
  | TimerTick => True
  end.

(** Events that can mint a session id while the machine stays IDLE. *)
Definition mintsIdWhileIdle (e : Event) : bool :=
  match e with
  | Call ORegenerateSessionIfIdle | Call OResetToIdle | TimerTick => true
  | _ => false
  end.

(** A caller-supplied payment record. *)
Definition info0 : PaymentInfo :=
  mkPaymentInfo (Some "pref-1"%string) (Some "https://qr"%string) None (Some 1500)
    (Some "soda"%string) (Some 5) None.

(** A world with an occupied, chatting store whose chat deadline is 61000. *)
Definition chattingWorld : World :=
  mkWorld (mkStore CHATTING 0%nat (Some "Ana"%string) 1000 (Some 61000) emptyPaymentInfo)
    None 1%nat [] [].

(** C1 as the spec states it: a call presenting an id different from the
    store's returns WrongSession and leaves the store unchanged. *)
Definition wrong_session_claim_as_stated : Prop :=
  forall (o : Op) (sid : SessionId) (t : Z) (w : World),
    opSessionId o = Some sid -> sid <> sessionId (store w) ->
    replyFailure (fst (runOp o t w)) = Some WrongSession /\ store (snd (runOp o t w)) = store w.


(** Claim, attach a payment, then cancel / dispense. *)
Definition paymentThenCancel : list (Z * Event) :=
  [(1000, Call (OClaim 0%nat "Bob")); (2000, Call (OSetPaymentInfo 0%nat info0));
   (3000, Call (OCancel 0%nat))].
Definition paymentThenDispense : list (Z * Event) :=
  [(1000, Call (OClaim 0%nat "Bob")); (2000, Call (OSetPaymentInfo 0%nat info0));
   (3000, Call (ODispense 0%nat))].

(** C6 as the spec states it, for an IDLE store. *)
Definition cancel_idle_ok_as_stated : Prop :=
  forall (sid : SessionId) (t : Z) (w : World),
    state (store w) = IDLE -> cancel sid t w = (Ok tt, w).

(** C7 as the spec states it, for a machine that stays IDLE. *)
Definition id_stable_while_idle_as_stated : Prop :=
  forall (e : Event) (t : Z) (w : World),
    state (store w) = IDLE -> state (store (snd (runEvent e t w))) = IDLE ->
    sessionId (store (snd (runEvent e t w))) = sessionId (store w).

(** One occupancy pauses its chat timer and cancels; the next one resumes. *)
Definition staleRemainingTrace : list (Z * Event) :=
  [(0, Call (OClaim 0%nat "Ana")); (10000, Call (OPauseChatTimer 0%nat));
   (11000, Call (OCancel 0%nat)); (12000, Call (OClaim 1%nat "Bob"));
   (13000, Call (OResumeChatTimer 1%nat))].

(** The world after the first three events of [staleRemainingTrace]: IDLE
    with the new id 1, and the 50000 ms captured by the first occupant's
    pause still held. *)
Definition staleWorld : World :=
  mkWorld (mkStore IDLE 1%nat None 11000 None emptyPaymentInfo) (Some 50000) 2%nat [] [].

(** ** Callers of the module in the payment routes *)

(** [snapshot.paymentInfo.preferenceId === order.id], for the id of the
    order fetched by the webhook. *)
Definition sameOrderId (orderId : string) (p : option string) : bool :=
  match p with Some x => String.eqb x orderId | None => false end.

(** JavaScript truthiness of a [string | null]: non-null and non-empty. *)
Definition truthyString (p : option string) : bool :=
  match p with Some x => negb (String.eqb x EmptyString) | None => false end.

(** One settling branch of the webhook (src/app/api/mercadopago/webhook/route.ts,
    lines 103-112; the three other branches differ only in the test on
    [snapshot.paymentInfo.preferenceId], which is [matches]). *)
Definition settleSnapshot (matches : option string -> bool) : M unit :=
  snapshot <- getSnapshot ;;
  if state_eqb (state snapshot) CHATTING && matches (preferenceId (paymentInfo snapshot)) then
    clearPaymentInfo (sessionId snapshot) ;;
    resumeChatTimerAfterPayment (sessionId snapshot) ;;
    ret tt
  else if state_eqb (state snapshot) PAYMENT_PENDING then
    clearPaymentInfo (sessionId snapshot) ;;
    transitionToChatting (sessionId snapshot) ;;
    ret tt
  else ret tt.

(** The webhook's handling of an order notification, once verified and the
    order fetched with id [orderId] and status [status] (lines 101-125). *)
Definition webhookOrderEvent (orderId status : string) : M unit :=
  if String.eqb status "paid" then settleSnapshot (sameOrderId orderId)
  else if String.eqb status "cancelled" || String.eqb status "expired" then
    settleSnapshot (sameOrderId orderId)
  else ret tt.

(** The webhook's handling of a payment notification, once verified and the
    payment fetched with status [status] (lines 136-158). *)
Definition webhookPaymentEvent (status : string) : M unit :=
  if String.eqb status "approved" then settleSnapshot truthyString
  else if String.eqb status "rejected" || String.eqb status "cancelled" then
    settleSnapshot truthyString
  else ret tt.

(** One tick of [startPaymentPolling] (src/app/api/mercadopago/payment/route.ts,
    lines 30-48) for the session [sid], once the order has been fetched with
    status [status]; the interval bookkeeping is left out. *)
Definition pollOrderStatus (sid : SessionId) (status : string) : M unit :=
  if String.eqb status "paid" || String.eqb status "processed" then
    snapshot <- getSnapshot ;;
    if Nat.eqb (sessionId snapshot) sid && state_eqb (state snapshot) PAYMENT_PENDING then
      clearPaymentInfo sid ;;
      transitionToChatting sid ;;
      ret tt
    else ret tt
  else if String.eqb status "cancelled" || String.eqb status "expired" then
    snapshot <- getSnapshot ;;
    if Nat.eqb (sessionId snapshot) sid && state_eqb (state snapshot) PAYMENT_PENDING then
      clearPaymentInfo sid ;;
      transitionToChatting sid ;;
      ret tt
    else ret tt
  else ret tt.

(** ** JavaScript string helpers *)

(** [s.split(c)] for a one-character separator: [""] splits into [[""]]. *)
Fixpoint splitOn (c : ascii) (s : string) : list string :=
  match s with
  | EmptyString => [EmptyString]
  | String x r =>
      if Ascii.eqb x c then EmptyString :: splitOn c r
      else match splitOn c r with
           | p :: ps => String x p :: ps
           | [] => [String x EmptyString]
           end
  end.

(** The characters of code 0-255 that [String.prototype.trim] removes:
    tab, line feed, vertical tab, form feed, carriage return, space and
    no-break space. *)
Definition isJsSpace (a : ascii) : bool :=
  let n := nat_of_ascii a in
  ((9 <=? n)%nat && (n <=? 13)%nat) || Nat.eqb n 32 || Nat.eqb n 160.

Fixpoint dropSpaces (l : list ascii) : list ascii :=
  match l with
  | a :: r => if isJsSpace a then dropSpaces r else l
  | [] => []
  end.

(** [s.trim()] *)
Definition trim (s : string) : string :=
  string_of_list_ascii (rev (dropSpaces (rev (dropSpaces (list_ascii_of_string s))))).

(** The entry [p.split("=").map(s => s.trim())] handed to
    [Object.fromEntries]: key [arr[0]], value [arr[1]] ([None] is
    [undefined]). *)
Definition entryOf (p : string) : string * option string :=
  match map trim (splitOn "=" p) with
  | k :: v :: _ => (k, Some v)
  | [k] => (k, None)
  | [] => (EmptyString, None)
  end.

(** [Object.fromEntries(entries)[key]]: the value of the last entry with that key. *)
Definition lookupLast (key : string) (entries : list (string * option string)) : option string :=
  fold_left (fun acc e => if String.eqb (fst e) key then snd e else acc) entries None.

(** [parseSignatureHeader] of the webhook route (lines 16-24); [None] for a
    [null] header and for [null] results. *)
Definition parseSignatureHeader (h : option string) : option (string * string) :=
  match h with
  | None => None
  | Some h =>
      if String.eqb h EmptyString then None
      else
        let parts := map trim (splitOn "," h) in
        let map := map entryOf parts in
        match lookupLast "ts" map, lookupLast "v1" map with
        | Some ts, Some v1 =>
            if truthyString (Some ts) && truthyString (Some v1) then Some (ts, v1) else None
        | _, _ => None
        end
  end.

(** Whether every character of [s] satisfies [p]. *)
Fixpoint allChars (p : ascii -> bool) (s : string) : bool :=
  match s with
  | EmptyString => true
  | String a r => p a && allChars p r
  end.

(** A token with none of the characters the header parser treats
    specially: no separator and no whitespace. *)
Definition plainToken (s : string) : bool :=
  allChars (fun a => negb (isJsSpace a || Ascii.eqb a "," || Ascii.eqb a "=")) s.

(** [String(n)] for an integer [n]. *)
Fixpoint uintString (u : Decimal.uint) : string :=
  match u with
  | Decimal.Nil => EmptyString
  | Decimal.D0 r => String "0" (uintString r)
  | Decimal.D1 r => String "1" (uintString r)
  | Decimal.D2 r => String "2" (uintString r)
  | Decimal.D3 r => String "3" (uintString r)
  | Decimal.D4 r => String "4" (uintString r)
  | Decimal.D5 r => String "5" (uintString r)
  | Decimal.D6 r => String "6" (uintString r)
  | Decimal.D7 r => String "7" (uintString r)
  | Decimal.D8 r => String "8" (uintString r)
  | Decimal.D9 r => String "9" (uintString r)
  end.

Definition numberToString (n : Z) : string :=
  match Z.to_int n with
  | Decimal.Pos u => uintString u
  | Decimal.Neg u => String "-" (uintString u)
  end.

(** ** The inventory file (src/lib/inventory.ts)

    Slot amounts are modelled as integers: the source's [amount: number]
    is not validated when the file is read, so this covers the files whose
    amounts are integers (as the default inventory and [decrementSlot]
    write them), not a hand-edited fractional amount.  The file
    [data/inventory.json] is either
    missing, holds text that [JSON.parse] rejects, or holds the JSON text of
    an inventory object, modelled as the list of its entries (keys are
    distinct, as in a parsed object). *)
Module Inventory.

Record InventorySlot := mkInventorySlot {
  description : string;
  amount : Z;
  avg_unit_price : option Z
}.

Definition Inventory := list (string * InventorySlot).

(** [inventory[key]] *)
Fixpoint lookup (key : string) (inventory : Inventory) : option InventorySlot :=
  match inventory with
  | [] => None
  | (k, v) :: r => if String.eqb k key then Some v else lookup key r
  end.

(** [{ ...inventory, [key]: v }]: an existing key keeps its place and takes
    the new value, a new key is appended. *)
Fixpoint assign (key : string) (v : InventorySlot) (inventory : Inventory) : Inventory :=
  match inventory with
  | [] => [(key, v)]
  | (k, x) :: r => if String.eqb k key then (k, v) :: r else (k, x) :: assign key v r
  end.

Definition emptySlot : InventorySlot := mkInventorySlot EmptyString 0 None.

Definition DEFAULT_INVENTORY : Inventory :=
  map (fun i => (numberToString (Z.of_nat i), emptySlot)) (seq 0 10).

Inductive InventoryFile :=
| Missing
| Unparsable
| Stored (inventory : Inventory).

Inductive InventoryError :=
| InvalidSlot   (* "Invalid slot: must be an integer 0-9" *)
| OutOfStock.   (* "Out of stock" *)

(** [writeInventory(inventory)]: the temporary file is renamed over the file. *)
Definition writeInventory (inventory : Inventory) (f : InventoryFile) : InventoryFile :=
  Stored inventory.

Definition ensureInventoryFile (f : InventoryFile) : InventoryFile :=
  match f with
  | Missing => writeInventory DEFAULT_INVENTORY f
  | _ => f
  end.

Definition readInventory (f : InventoryFile) : Inventory * InventoryFile :=
  match ensureInventoryFile f with
  | Stored parsed => (parsed, Stored parsed)
  | f1 => (DEFAULT_INVENTORY, writeInventory DEFAULT_INVENTORY f1)
  end.

Definition decrementSlot (slot : Z) (f : InventoryFile)
    : (InventoryError + Inventory) * InventoryFile :=
  if (slot <? 0) || (9 <? slot) then (inl InvalidSlot, f)
  else
    let (inventory, f1) := readInventory f in
    let key := numberToString slot in
    let current := match lookup key inventory with Some c => c | None => emptySlot end in
    if amount current <=? 0 then (inl OutOfStock, f1)
    else
      let updated :=
        assign key (mkInventorySlot (description current) (amount current - 1)
                      (avg_unit_price current)) inventory in
      (inr updated, writeInventory updated f1).

(** The number of items in all the slots together. *)
Definition totalStock (inventory : Inventory) : Z :=
  fold_right (fun e acc => amount (snd e) + acc) 0 inventory.

End Inventory.

(** ** The dispense tool of the chat route (src/app/api/vending/chat/route.ts) *)

Inductive DispenseToolReply :=
| SlotOutOfStock                    (* "Selected slot is out of stock." *)
| NotDispensed (f : Failure)        (* result.message *)
| Dispensed (productName : string). (* "${productName} dispensed successfully. ..." *)

(** The [execute] of the dispense tool (lines 101-129) for the chat's
    session [sid]; [slot] is [Some s] when the tool received an integer
    [slot], [None] otherwise.  The error of [decrementSlot] is only logged. *)
Definition dispenseTool (sid : SessionId) (productName : string) (slot : option Z)
    (t : Z) (w : World) (f : Inventory.InventoryFile)
    : DispenseToolReply * World * Inventory.InventoryFile :=
  match slot with
  | Some s =>
      let (inv, f1) := Inventory.readInventory f in
      match Inventory.lookup (numberToString s) inv with
      | None => (SlotOutOfStock, w, f1)
      | Some item =>
          if Inventory.amount item <=? 0 then (SlotOutOfStock, w, f1)
          else
            let name :=
              if (0 <? String.length (trim (Inventory.description item)))%nat
              then Inventory.description item
              else ("Slot " ++ numberToString s)%string in
            let (r, w1) := dispense sid t w in
            match r with
            | Err e => (NotDispensed e, w1, f1)
            | Ok _ => (Dispensed name, w1, snd (Inventory.decrementSlot s f1))
            end
      end
  | None =>
      let (r, w1) := dispense sid t w in
      match r with
      | Err e => (NotDispensed e, w1, f)
      | Ok _ => (Dispensed productName, w1, f)
      end
  end.


(** ** Invariants of the store *)

(** What every reachable world satisfies: the machine is never
    PAYMENT_PENDING, an IDLE store has no occupant and no chat deadline, a
    CHATTING or DISPENSING store has an occupant, and every physical dispense
    was logged for an occupant. *)
Definition storeInv (w : World) : Prop :=
  state (store w) <> PAYMENT_PENDING
  /\ (state (store w) = IDLE -> lockedByName (store w) = None /\ chatExpiresAt (store w) = None)
  /\ (state (store w) = CHATTING \/ state (store w) = DISPENSING -> lockedByName (store w) <> None)
  /\ Forall (fun x => x <> None) (dispenseLog w).

(** A chatting store whose occupant has a pending order "ORD1" (payment
    deadline 62000) and a paused chat timer with 20000 ms left. *)
Definition orderWorld : World :=
  mkWorld (mkStore CHATTING 0%nat (Some "Ana"%string) 2000 None
             (stampPaymentInfo (mkPaymentInfo (Some "ORD1"%string) None None (Some 1500)
                                  (Some "soda"%string) None None) 2000))
    (Some 20000) 1%nat [] [].

(** Ana claims and dispenses; before the auto-advance fires she cancels and
    Bob claims the new id. *)
Definition reclaimTrace : list (Z * Event) :=
  [(0, Call (OClaim 0%nat "Ana")); (1000, Call (ODispense 0%nat));
   (1200, Call (OCancel 0%nat)); (1500, Call (OClaim 1%nat "Bob"))].

(** The world [reclaimTrace] leads to: Bob chatting under id 1, with Ana's
    auto-advance still queued for 2000. *)
Definition reclaimedWorld : World :=
  mkWorld (mkStore CHATTING 1%nat (Some "Bob"%string) 1500 (Some 61500) emptyPaymentInfo)
    None 2%nat [mkTimer 2000 AdvanceToDone] [Some "Ana"%string].

(** ** Sanity checks on concrete inputs *)

Example claim_then_snapshot :
  let w := snd (claim 0%nat "Ana" 1000 (initWorld 0)) in
  state (store w) = CHATTING /\ chatExpiresAt (store w) = Some 61000
  /\ lockedByName (store w) = Some "Ana"%string.
Proof. vm_compute. repeat split. Qed.

Example staleWorld_reached :
  runTrace (firstn 3 staleRemainingTrace) (initWorld 0) = staleWorld.
Proof. reflexivity. Qed.

Example reclaimedWorld_reached :
  runTrace reclaimTrace (initWorld 0) = reclaimedWorld.
Proof. reflexivity. Qed.

Example snapshot_after_chat_deadline :
  let w := snd (claim 0%nat "Ana" 1000 (initWorld 0)) in
  state (fst (getSnapshot 61000 w)) = IDLE /\ sessionId (fst (getSnapshot 61000 w)) = 1%nat.
Proof. vm_compute. split; reflexivity. Qed.



(** ** Evaluation lemmas *)

Lemma state_eqb_true (a b : VendingStateType) : state_eqb a b = true <-> a = b.
Proof. destruct a, b; cbn; split; congruence. Qed.

Lemma state_eqb_refl (a : VendingStateType) : state_eqb a a = true.
Proof. destruct a; reflexivity. Qed.

Lemma resetToIdle_eq (t : Z) (w : World) :
  resetToIdle t w =
  (tt, mkWorld (mkStore IDLE (idSeed w) None t None emptyPaymentInfo)
         (pausedTimeRemaining w) (S (idSeed w)) (timers w) (dispenseLog w)).
Proof. destruct w as [[] ? ? ? ?]; reflexivity. Qed.

Lemma expireIfNeeded_eq (t : Z) (w : World) :
  expireIfNeeded t w = if isExpired t (store w) then resetToIdle t w else (tt, w).
Proof.
  unfold expireIfNeeded, isExpired, bind, now, getStore, ret; cbn.
  destruct (state_eqb (state (store w)) CHATTING && deadlinePassed t (chatExpiresAt (store w)));
    [reflexivity|].
  destruct (state_eqb (state (store w)) PAYMENT_PENDING
            && deadlinePassed t (paymentExpiresAt (paymentInfo (store w)))); [reflexivity|].
  destruct (state_eqb (state (store w)) CHATTING
            && deadlinePassed t (paymentExpiresAt (paymentInfo (store w)))); reflexivity.
Qed.

Lemma afterExpiry_eq (t : Z) (w : World) :
  afterExpiry t w = if isExpired t (store w) then snd (resetToIdle t w) else w.
Proof. unfold afterExpiry; rewrite expireIfNeeded_eq; destruct (isExpired t (store w)); reflexivity. Qed.

(** Running [expireIfNeeded] first and then [k]. *)
Lemma bind_expire {A : Type} (k : unit -> M A) (t : Z) (w : World) :
  bind expireIfNeeded k t w = k tt t (afterExpiry t w).
Proof.
  unfold bind, afterExpiry; destruct (expireIfNeeded t w) as [[] w']; reflexivity.
Qed.


Ltac run_expiry_first :=
  unfold afterExpiry in *;
  let u := fresh "u" in let w0 := fresh "w0" in let E := fresh "Eexp" in
  destruct (expireIfNeeded _ _) as [u w0] eqn:E; cbn in *.


Ltac unfold_ops :=
  unfold runEvent, runOp, runDueTimer, fireCallback, getSnapshot, ensureIdleSession,
    regenerateSessionIfIdle, claim, cancel, dispense, markDone, canSendChat, pauseChatTimer,
    resumeChatTimer, setPaymentInfo, clearPaymentInfo, getPaymentInfo, transitionToChatting,
    resumeChatTimerAfterPayment, expireIfNeeded, resetToIdle, touch, bind, getStore, ret, now,
    modifyStore, generateSessionId, getPaused, setPaused, setTimeout, logDispense,
    deadlinePassed in *.

(** Exhaustive case analysis on the scrutinees of an unfolded operation. *)
Ltac crush :=
  repeat (match goal with
   | |- context [state_eqb ?a ?b] => is_var a; destruct a; cbn
   | |- context [Nat.eqb ?a ?b] => destruct (Nat.eqb a b) eqn:?; cbn
   | |- context [Z.leb ?a ?b] => destruct (Z.leb a b) eqn:?; cbn
   | |- context [match ?x with _ => _ end] =>
       lazymatch type of x with prod _ _ => fail | _ => destruct x eqn:?; cbn end
   end);
  repeat match goal with
   | H : (_ =? _)%nat = true |- _ => apply Nat.eqb_eq in H; subst
   | H : (_ =? _)%nat = false |- _ => apply Nat.eqb_neq in H
   end.

(** What one event does to the session id: the id counter only grows, the
    store's id stays issued, an id change always ends in IDLE, a return to
    IDLE from another state always mints an id, and only the functions in
    [mintsIdWhileIdle] mint one while the machine stays IDLE. *)
Lemma step_session_id (e : Event) (t : Z) (w : World) :
  idIssued (sessionId (store w)) w ->
  presentedIdIssued e w ->
  let w' := snd (runEvent e t w) in
  idIssued (sessionId (store w')) w'
  /\ (idSeed w <= idSeed w')%nat
  /\ (sessionId (store w') <> sessionId (store w) -> state (store w') = IDLE)
  /\ (state (store w) <> IDLE -> state (store w') = IDLE ->
      sessionId (store w') <> sessionId (store w))
  /\ (state (store w) = IDLE -> state (store w') = IDLE ->
      sessionId (store w') <> sessionId (store w) -> mintsIdWhileIdle e = true).
Proof.
  destruct w as [[st sid ln ua ce [p1 p2 p3 p4 p5 p6 p7]] paused seed tms log].
  unfold idIssued; intros Hinv Hpres; cbn in Hinv.
  destruct e as [o|]; [destruct o|]; cbn in Hpres |- *; unfold_ops; cbn;
    crush; repeat split; intros; try congruence; lia.
Qed.

(** Every event keeps the store's id issued, whatever id it presents. *)
Lemma step_idIssued (e : Event) (t : Z) (w : World) :
  idIssued (sessionId (store w)) w ->
  idIssued (sessionId (store (snd (runEvent e t w)))) (snd (runEvent e t w)).
Proof.
  destruct w as [[st sid ln ua ce [p1 p2 p3 p4 p5 p6 p7]] paused seed tms log].
  unfold idIssued; intros Hinv; cbn in Hinv.
  destruct e as [o|]; [destruct o|]; cbn; unfold_ops; cbn; crush; lia.
Qed.

Lemma reachable_idIssued (w : World) : reachable w -> idIssued (sessionId (store w)) w.
Proof.
  induction 1 as [t0|w e t _ IH].
  - unfold idIssued; cbn; lia.
  - apply step_idIssued, IH.
Qed.

Lemma runTrace_reachable (tr : list (Z * Event)) (w : World) :
  reachable w -> reachable (runTrace tr w).
Proof.
  revert w; induction tr as [|[t e] tr IH]; intros w Hw; cbn; [exact Hw|].
  apply IH, reach_step, Hw.
Qed.

Lemma getSnapshot_eq (t : Z) (w : World) :
  getSnapshot t w = (store (afterExpiry t w), afterExpiry t w).
Proof.
  unfold getSnapshot, afterExpiry, bind, getStore.
  destruct (expireIfNeeded t w) as [[] w']; reflexivity.
Qed.

(** ** Claims *)

(** C1 (amended): a call presenting a session id that differs from the
    store's id, as the store stands after the call's own lazy expiry check
    (for the functions that run one), fails without any further effect: the
    world is exactly the one the expiry check left.  The failure is
    WrongSession, except for [claim], which reports Busy when the machine is
    not IDLE and InvalidSession when it is. *)
Theorem wrong_session_leaves_world_after_expiry (o : Op) (sid : SessionId) (t : Z) (w : World) :
  opSessionId o = Some sid ->
  sid <> sessionId (store (if opChecksExpiry o then afterExpiry t w else w)) ->
  snd (runOp o t w) = (if opChecksExpiry o then afterExpiry t w else w)
  /\ replyFailure (fst (runOp o t w))
     = Some (expectedWrongIdFailure o (store (if opChecksExpiry o then afterExpiry t w else w))).
Proof.
  intros Ho Hne; destruct o; cbn in Ho; try discriminate; injection Ho as <-; cbn in Hne |- *;
  unfold claim, cancel, dispense, markDone, canSendChat, pauseChatTimer, resumeChatTimer,
    setPaymentInfo, clearPaymentInfo, getPaymentInfo, transitionToChatting,
    resumeChatTimerAfterPayment, bind, getStore, ret in *;
  try run_expiry_first;
  apply Nat.eqb_neq in Hne; try rewrite Hne; cbn;
  try (destruct (state_eqb (state (store _)) IDLE); cbn; try rewrite Hne);
  auto.
Qed.

Lemma wrong_session_leaves_world_after_expiry_witness :
  snd (runOp (OCancel 5%nat) 70000 chattingWorld) = afterExpiry 70000 chattingWorld
  /\ replyFailure (fst (runOp (OCancel 5%nat) 70000 chattingWorld)) = Some WrongSession.
Proof.
  exact (wrong_session_leaves_world_after_expiry (OCancel 5%nat) 5%nat 70000 chattingWorld
           eq_refl ltac:(vm_compute; discriminate)).
Defined.

(** C1 (counterexample): a chatting store whose chat deadline (61000) has
    passed at time 70000; [cancel 5], with 5 different from the store's id 0,
    returns WrongSession but the store has been reset to IDLE by the lazy
    expiry check, so the store is not left unchanged. *)
Lemma wrong_session_claim_counterexample : ~ wrong_session_claim_as_stated.
Proof.
  intro H.
  destruct (H (OCancel 5%nat) 5%nat 70000 chattingWorld eq_refl ltac:(cbn; discriminate))
    as [_ Hs].
  vm_compute in Hs; discriminate Hs.
Qed.

(** C2 (code_bug): starting from the initial IDLE store, [claim],
    [setPaymentInfo] and then [cancel] reach an IDLE store whose payment
    record still holds the caller's data and a live deadline; with
    [dispense] instead of [cancel] the DISPENSING store holds it too.
    [cancel] and [dispense] never write [store.paymentInfo], while
    [resetToIdle] clears it. *)
Theorem payment_info_survives_cancel_and_dispense :
  reachable (runTrace paymentThenCancel (initWorld 0))
  /\ state (store (runTrace paymentThenCancel (initWorld 0))) = IDLE
  /\ paymentInfo (store (runTrace paymentThenCancel (initWorld 0))) = stampPaymentInfo info0 2000
  /\ reachable (runTrace paymentThenDispense (initWorld 0))
  /\ state (store (runTrace paymentThenDispense (initWorld 0))) = DISPENSING
  /\ paymentInfo (store (runTrace paymentThenDispense (initWorld 0))) = stampPaymentInfo info0 2000
  /\ stampPaymentInfo info0 2000 <> emptyPaymentInfo.
Proof.
  repeat split; try (apply runTrace_reachable, reach_init); try reflexivity; discriminate.
Qed.

(** C3: when the store is CHATTING with a chat deadline at or before the
    current time, or is CHATTING or PAYMENT_PENDING with a payment deadline
    at or before the current time, [getSnapshot] returns (and leaves in the
    store) an IDLE record with a new session id, no occupant, no chat
    deadline and the all-null payment record. *)
Theorem snapshot_observes_expiry_as_fresh_idle (t : Z) (w : World) :
  idIssued (sessionId (store w)) w ->
  (state (store w) = CHATTING /\ exists d, chatExpiresAt (store w) = Some d /\ d <= t)
  \/ ((state (store w) = CHATTING \/ state (store w) = PAYMENT_PENDING)
      /\ exists p, paymentExpiresAt (paymentInfo (store w)) = Some p /\ p <= t) ->
  state (fst (getSnapshot t w)) = IDLE
  /\ sessionId (fst (getSnapshot t w)) <> sessionId (store w)
  /\ lockedByName (fst (getSnapshot t w)) = None
  /\ chatExpiresAt (fst (getSnapshot t w)) = None
  /\ paymentInfo (fst (getSnapshot t w)) = emptyPaymentInfo
  /\ store (snd (getSnapshot t w)) = fst (getSnapshot t w).
Proof.
  intros Hid Hexp.
  assert (Hx : isExpired t (store w) = true).
  { unfold isExpired, deadlinePassed.
    destruct Hexp as [[Hs [d [Hd Hle]]] | [Hs [p [Hp Hle]]]];
      apply Z.leb_le in Hle.
    - rewrite Hs, Hd, Hle; reflexivity.
    - rewrite Hp, Hle; destruct Hs as [Hs|Hs]; rewrite Hs; cbn;
        rewrite ?orb_true_r; reflexivity. }
  rewrite getSnapshot_eq, afterExpiry_eq, Hx, resetToIdle_eq; cbn.
  unfold idIssued in Hid; repeat split; lia.
Qed.

Lemma snapshot_observes_expiry_as_fresh_idle_witness :
  state (fst (getSnapshot 70000 chattingWorld)) = IDLE
  /\ sessionId (fst (getSnapshot 70000 chattingWorld)) <> sessionId (store chattingWorld)
  /\ lockedByName (fst (getSnapshot 70000 chattingWorld)) = None
  /\ chatExpiresAt (fst (getSnapshot 70000 chattingWorld)) = None
  /\ paymentInfo (fst (getSnapshot 70000 chattingWorld)) = emptyPaymentInfo
  /\ store (snd (getSnapshot 70000 chattingWorld)) = fst (getSnapshot 70000 chattingWorld).
Proof.
  apply (snapshot_observes_expiry_as_fresh_idle 70000 chattingWorld).
  - unfold idIssued; cbn; lia.
  - left; split; [reflexivity|]; exists 61000; split; [reflexivity | lia].
Defined.

(** C4 (code_bug): [pauseChatTimer] runs no expiry check.  On the store
    left by [claim 0 "Ana"] at 1000 (chat deadline 61000), at 70000 the
    pause succeeds on the expired session, captures max(0, 61000 - 70000)
    = 0 rather than the deadline minus now, and nulls the deadline: the
    session stays CHATTING with no deadline, so [canSendChat] still
    succeeds at 100000, while on the unpaused store [canSendChat] at 70000
    expires it and fails.  An immediate resume re-arms the deadline at
    70000, not at the pre-pause 61000.  And in the occupancy that follows a
    paused and cancelled one, a resume with no pause of its own is not a
    no-op: it moves the deadline 72000 set by [claim] to 13000 + 50000,
    from the remaining time the previous occupant's pause captured. *)
Theorem pause_revives_expired_chat :
  runTrace [(1000, Call (OClaim 0%nat "Ana"))] (initWorld 0) = chattingWorld
  /\ isExpired 70000 (store chattingWorld) = true
  /\ fst (canSendChat 0%nat 70000 chattingWorld) = Err WrongSession
  /\ fst (pauseChatTimer 0%nat 70000 chattingWorld) = Ok tt
  /\ pausedTimeRemaining (snd (pauseChatTimer 0%nat 70000 chattingWorld)) = Some 0
  /\ chatExpiresAt (store (snd (pauseChatTimer 0%nat 70000 chattingWorld))) = None
  /\ fst (canSendChat 0%nat 100000 (snd (pauseChatTimer 0%nat 70000 chattingWorld))) = Ok tt
  /\ state (store (snd (canSendChat 0%nat 100000 (snd (pauseChatTimer 0%nat 70000 chattingWorld)))))
     = CHATTING
  /\ chatExpiresAt (store (snd (resumeChatTimer 0%nat 70000
                                  (snd (pauseChatTimer 0%nat 70000 chattingWorld))))) = Some 70000
  /\ runTrace (firstn 3 staleRemainingTrace) (initWorld 0) = staleWorld
  /\ chatExpiresAt (store (snd (claim 1%nat "Bob" 12000 staleWorld))) = Some 72000
  /\ chatExpiresAt (store (snd (resumeChatTimer 1%nat 13000
                                  (snd (claim 1%nat "Bob" 12000 staleWorld))))) = Some 63000.
Proof. vm_compute; repeat split. Qed.

(** C5 (code_bug): [setPaymentInfo], [pauseChatTimer], [resumeChatTimer],
    [clearPaymentInfo] and [getPaymentInfo] do not run [expireIfNeeded].  On
    the chatting store whose chat deadline 61000 has passed, at time 70000,
    [setPaymentInfo] succeeds and attaches a payment to the expired session,
    [pauseChatTimer] succeeds and [getPaymentInfo] succeeds, all leaving the
    state CHATTING, while [canSendChat] with the same id on the same store
    resets it to IDLE and fails. *)
Theorem operations_skip_expiry_check :
  isExpired 70000 (store chattingWorld) = true
  /\ fst (setPaymentInfo 0%nat info0 70000 chattingWorld) = Ok tt
  /\ state (store (snd (setPaymentInfo 0%nat info0 70000 chattingWorld))) = CHATTING
  /\ paymentInfo (store (snd (setPaymentInfo 0%nat info0 70000 chattingWorld)))
     = stampPaymentInfo info0 70000
  /\ fst (pauseChatTimer 0%nat 70000 chattingWorld) = Ok tt
  /\ state (store (snd (pauseChatTimer 0%nat 70000 chattingWorld))) = CHATTING
  /\ fst (getPaymentInfo 0%nat 70000 chattingWorld) = Ok emptyPaymentInfo
  /\ fst (clearPaymentInfo 0%nat 70000 chattingWorld) = Ok tt
  /\ state (store (snd (clearPaymentInfo 0%nat 70000 chattingWorld))) = CHATTING
  /\ fst (canSendChat 0%nat 70000 chattingWorld) = Err WrongSession
  /\ state (store (snd (canSendChat 0%nat 70000 chattingWorld))) = IDLE.
Proof. vm_compute; repeat split. Qed.

(** C6 (amended): [cancel] first runs the lazy expiry check; against the
    store it leaves, a call with a different id fails with WrongSession and
    changes nothing more, in every state including IDLE; with the store's id
    it returns ok, is a no-op when IDLE, and from every other state, with no
    further state guard, makes the machine IDLE with no occupant, no chat
    deadline and a freshly generated id (the id counter's next value, never
    issued before). *)
Theorem cancel_after_expiry (sid : SessionId) (t : Z) (w : World) :
  (sid <> sessionId (store (afterExpiry t w)) ->
     cancel sid t w = (Err WrongSession, afterExpiry t w))
  /\ (sid = sessionId (store (afterExpiry t w)) -> state (store (afterExpiry t w)) = IDLE ->
     cancel sid t w = (Ok tt, afterExpiry t w))
  /\ (sid = sessionId (store (afterExpiry t w)) -> state (store (afterExpiry t w)) <> IDLE ->
     fst (cancel sid t w) = Ok tt
     /\ state (store (snd (cancel sid t w))) = IDLE
     /\ lockedByName (store (snd (cancel sid t w))) = None
     /\ chatExpiresAt (store (snd (cancel sid t w))) = None
     /\ sessionId (store (snd (cancel sid t w))) = idSeed (afterExpiry t w)
     /\ (idSeed w <= idSeed (afterExpiry t w))%nat
     /\ idSeed (snd (cancel sid t w)) = S (idSeed (afterExpiry t w))).
Proof.
  unfold cancel; rewrite bind_expire.
  assert (Hseed : (idSeed w <= idSeed (afterExpiry t w))%nat).
  { rewrite afterExpiry_eq; destruct (isExpired t (store w)); rewrite ?resetToIdle_eq; cbn; lia. }
  revert Hseed; generalize (afterExpiry t w); intros w0 Hseed.
  destruct w0 as [[st x ln ua ce pi] paused seed tms log]; cbn in *.
  unfold bind, getStore, ret, modifyStore, generateSessionId, touch, now; cbn.
  split; [|split].
  - intros Hid; apply Nat.eqb_neq in Hid; rewrite Hid; reflexivity.
  - intros <- Hs; subst; rewrite Nat.eqb_refl; reflexivity.
  - intros <- Hs; rewrite Nat.eqb_refl; cbn.
    destruct st; cbn in *; try congruence; repeat split; lia.
Qed.

Lemma cancel_after_expiry_witness :
  fst (cancel 0%nat 3000 chattingWorld) = Ok tt
  /\ state (store (snd (cancel 0%nat 3000 chattingWorld))) = IDLE
  /\ lockedByName (store (snd (cancel 0%nat 3000 chattingWorld))) = None
  /\ chatExpiresAt (store (snd (cancel 0%nat 3000 chattingWorld))) = None
  /\ sessionId (store (snd (cancel 0%nat 3000 chattingWorld))) = idSeed (afterExpiry 3000 chattingWorld)
  /\ (idSeed chattingWorld <= idSeed (afterExpiry 3000 chattingWorld))%nat
  /\ idSeed (snd (cancel 0%nat 3000 chattingWorld)) = S (idSeed (afterExpiry 3000 chattingWorld)).
Proof.
  exact (proj2 (proj2 (cancel_after_expiry 0%nat 3000 chattingWorld))
           eq_refl ltac:(vm_compute; discriminate)).
Defined.

(** C6 (counterexample): on the initial IDLE store (id 0), [cancel 7]
    fails with WrongSession instead of returning ok: the id guard comes
    before the IDLE check. *)
Lemma cancel_idle_claim_counterexample : ~ cancel_idle_ok_as_stated.
Proof.
  intro H; specialize (H 7%nat 0 (initWorld 0) eq_refl).
  vm_compute in H; discriminate H.
Qed.

(** C7 (amended): for every exported call and every timer callback, with
    the store's id and the presented id (if any) issued before the call:
    when the session id changes, the machine ends IDLE; every move from a
    non-IDLE state to IDLE installs a different id; and the id changes while
    the machine is IDLE before and after only through
    [regenerateSessionIfIdle], [resetToIdle] or the dispense auto-advance's
    reset callback. *)
Theorem session_id_changes_only_into_idle (e : Event) (t : Z) (w : World) :
  idIssued (sessionId (store w)) w ->
  presentedIdIssued e w ->
  (sessionId (store (snd (runEvent e t w))) <> sessionId (store w) ->
     state (store (snd (runEvent e t w))) = IDLE)
  /\ (state (store w) <> IDLE -> state (store (snd (runEvent e t w))) = IDLE ->
     sessionId (store (snd (runEvent e t w))) <> sessionId (store w))
  /\ (state (store w) = IDLE -> state (store (snd (runEvent e t w))) = IDLE ->
     sessionId (store (snd (runEvent e t w))) <> sessionId (store w) ->
     mintsIdWhileIdle e = true).
Proof.
  intros Hid Hpres.
  destruct (step_session_id e t w Hid Hpres) as (_ & _ & H1 & H2 & H3).
  exact (conj H1 (conj H2 H3)).
Qed.

Lemma session_id_changes_only_into_idle_witness :
  sessionId (store (snd (runEvent (Call (OCancel 0%nat)) 3000 chattingWorld)))
    <> sessionId (store chattingWorld).
Proof.
  destruct (session_id_changes_only_into_idle (Call (OCancel 0%nat)) 3000 chattingWorld
              ltac:(unfold idIssued; cbn; lia) ltac:(cbn; lia)) as (_ & H & _).
  apply H; [cbn; discriminate | vm_compute; reflexivity].
Defined.

(** C7 (counterexample): on the initial IDLE store, [regenerateSessionIfIdle]
    installs a new id while the machine stays IDLE. *)
Lemma id_stable_while_idle_counterexample : ~ id_stable_while_idle_as_stated.
Proof.
  intro H; specialize (H (Call ORegenerateSessionIfIdle) 5 (initWorld 0) eq_refl eq_refl).
  vm_compute in H; discriminate H.
Qed.

(** C8: [setPaymentInfo] succeeds exactly when the presented id is the
    store's and the state is CHATTING; on success the stored record is the
    caller's with [createdAt = now] and [paymentExpiresAt = now + PAYMENT_TTL_MS]
    whatever the caller put there, and a second successful call at [t']
    stamps the window afresh from [t']. *)
Theorem setPaymentInfo_stamps_window (sid : SessionId) (info info' : PaymentInfo) (t t' : Z)
    (w : World) :
  (isOk (fst (setPaymentInfo sid info t w)) = true
     <-> sid = sessionId (store w) /\ state (store w) = CHATTING)
  /\ (isOk (fst (setPaymentInfo sid info t w)) = true ->
      paymentInfo (store (snd (setPaymentInfo sid info t w))) = stampPaymentInfo info t
      /\ createdAt (paymentInfo (store (snd (setPaymentInfo sid info t w)))) = Some t
      /\ paymentExpiresAt (paymentInfo (store (snd (setPaymentInfo sid info t w))))
         = Some (t + PAYMENT_TTL_MS)
      /\ isOk (fst (setPaymentInfo sid info' t' (snd (setPaymentInfo sid info t w)))) = true
      /\ paymentExpiresAt (paymentInfo (store
           (snd (setPaymentInfo sid info' t' (snd (setPaymentInfo sid info t w))))))
         = Some (t' + PAYMENT_TTL_MS)).
Proof.
  destruct w as [[st x ln ua ce pi] paused seed tms log].
  unfold setPaymentInfo, bind, getStore, ret, now, modifyStore, touch; cbn.
  destruct (sid =? x)%nat eqn:Hx; cbn.
  - apply Nat.eqb_eq in Hx; subst.
    destruct st; cbn; repeat (rewrite Nat.eqb_refl; cbn); intuition congruence.
  - apply Nat.eqb_neq in Hx.
    split; [split; [discriminate | intros [Hs _]; congruence] | discriminate].
Qed.

Lemma setPaymentInfo_stamps_window_witness :
  paymentExpiresAt (paymentInfo (store (snd (setPaymentInfo 0%nat info0 40000
    (snd (setPaymentInfo 0%nat info0 30000 chattingWorld)))))) = Some (40000 + PAYMENT_TTL_MS).
Proof.
  destruct (setPaymentInfo_stamps_window 0%nat info0 info0 30000 40000 chattingWorld)
    as [_ H].
  apply H; vm_compute; reflexivity.
Defined.

Lemma afterExpiry_dispenseLog (t : Z) (w : World) :
  dispenseLog (afterExpiry t w) = dispenseLog w.
Proof.
  rewrite afterExpiry_eq; destruct (isExpired t (store w)); rewrite ?resetToIdle_eq; reflexivity.
Qed.

Lemma afterExpiry_dispensing (t : Z) (w : World) :
  state (store w) = DISPENSING -> afterExpiry t w = w.
Proof.
  intros Hs; rewrite afterExpiry_eq; unfold isExpired; rewrite Hs; reflexivity.
Qed.

(** C9: [dispense] runs the lazy expiry check (which logs nothing); against
    the store it leaves, a different id fails with WrongSession and a state
    other than CHATTING fails with InvalidState, with no further effect.
    Otherwise it succeeds: the state becomes DISPENSING, the physical
    dispense is triggered exactly once (one entry appended to the dispense
    log), the chat deadline no longer acts (no later expiry check changes the
    store), and a callback is queued at now + 1000 that sets DONE and queues
    a second one, 2000 later, that returns the machine to IDLE. *)
Theorem dispense_after_expiry (sid : SessionId) (t t1 t2 : Z) (w : World) :
  dispenseLog (afterExpiry t w) = dispenseLog w
  /\ (sid <> sessionId (store (afterExpiry t w)) ->
      dispense sid t w = (Err WrongSession, afterExpiry t w))
  /\ (sid = sessionId (store (afterExpiry t w)) -> state (store (afterExpiry t w)) <> CHATTING ->
      dispense sid t w = (Err (InvalidState (state (store (afterExpiry t w)))), afterExpiry t w))
  /\ (sid = sessionId (store (afterExpiry t w)) -> state (store (afterExpiry t w)) = CHATTING ->
      fst (dispense sid t w) = Ok tt
      /\ state (store (snd (dispense sid t w))) = DISPENSING
      /\ dispenseLog (snd (dispense sid t w))
         = dispenseLog w ++ [lockedByName (store (afterExpiry t w))]
      /\ timers (snd (dispense sid t w))
         = insertTimer (mkTimer (t + 1000) AdvanceToDone) (timers (afterExpiry t w))
      /\ (forall t', afterExpiry t' (snd (dispense sid t w)) = snd (dispense sid t w))
      /\ state (store (snd (fireCallback AdvanceToDone t1 (snd (dispense sid t w))))) = DONE
      /\ timers (snd (fireCallback AdvanceToDone t1 (snd (dispense sid t w))))
         = insertTimer (mkTimer (t1 + 2000) ResetAfterDone) (timers (snd (dispense sid t w)))
      /\ state (store (snd (fireCallback ResetAfterDone t2
                              (snd (fireCallback AdvanceToDone t1 (snd (dispense sid t w)))))))
         = IDLE).
Proof.
  pose proof (afterExpiry_dispenseLog t w) as Hlog.
  split; [exact Hlog|].
  unfold dispense; rewrite !bind_expire.
  revert Hlog; generalize (afterExpiry t w); intros w0 Hlog.
  destruct w0 as [[st x ln ua ce pi] paused seed tms log]; cbn in Hlog |- *; subst log.
  unfold bind, getStore, ret, modifyStore, logDispense, touch, now, setTimeout; cbn.
  split; [|split].
  - intros Hid; apply Nat.eqb_neq in Hid; rewrite Hid; reflexivity.
  - intros <- Hs; rewrite Nat.eqb_refl; destruct st; cbn; congruence.
  - intros <- Hs; subst st; rewrite Nat.eqb_refl; cbn.
    repeat split; intros; apply afterExpiry_dispensing; reflexivity.
Qed.

Lemma dispense_after_expiry_witness :
  fst (dispense 0%nat 3000 chattingWorld) = Ok tt
  /\ state (store (snd (dispense 0%nat 3000 chattingWorld))) = DISPENSING.
Proof.
  destruct (dispense_after_expiry 0%nat 3000 4000 6000 chattingWorld) as (_ & _ & _ & H).
  destruct H as (Hok & Hst & _); [vm_compute; reflexivity | vm_compute; reflexivity |].
  exact (conj Hok Hst).
Defined.

(** C10: [cancel], [resetToIdle] and the lazy expiry check leave
    [pausedTimeRemaining] as it is; once the machine is IDLE with a remaining
    time [r] still held, the next occupant's [claim] arms the deadline at
    claim time + CHAT_TTL_MS, and their first [resumeChatTimer] succeeds and
    overwrites it with resume time + r. *)
Theorem stale_paused_remaining_carries_over (r t t2 t3 : Z) (sid : SessionId)
    (name : string) (w : World) :
  pausedTimeRemaining w = Some r ->
  pausedTimeRemaining (snd (cancel sid t w)) = Some r
  /\ pausedTimeRemaining (snd (resetToIdle t w)) = Some r
  /\ pausedTimeRemaining (afterExpiry t w) = Some r
  /\ (state (store w) = IDLE ->
      fst (claim (sessionId (store w)) name t2 w) = Ok tt
      /\ chatExpiresAt (store (snd (claim (sessionId (store w)) name t2 w)))
         = Some (t2 + CHAT_TTL_MS)
      /\ fst (resumeChatTimer (sessionId (store w)) t3
                (snd (claim (sessionId (store w)) name t2 w))) = Ok tt
      /\ chatExpiresAt (store (snd (resumeChatTimer (sessionId (store w)) t3
                                     (snd (claim (sessionId (store w)) name t2 w)))))
         = Some (t3 + r)).
Proof.
  intros Hp.
  assert (He : forall t0 w0, pausedTimeRemaining (afterExpiry t0 w0) = pausedTimeRemaining w0).
  { intros t0 w0; rewrite afterExpiry_eq; destruct (isExpired t0 (store w0));
      rewrite ?resetToIdle_eq; reflexivity. }
  split; [|split; [|split]].
  - unfold cancel; rewrite bind_expire.
    rewrite <- Hp, <- (He t w); generalize (afterExpiry t w); intros w0.
    destruct w0 as [[st x ln ua ce pi] paused seed tms log].
    unfold bind, getStore, ret, modifyStore, generateSessionId, touch, now; cbn.
    destruct (sid =? x)%nat, st; reflexivity.
  - rewrite resetToIdle_eq; exact Hp.
  - rewrite He; exact Hp.
  - intros Hs.
    assert (Hn : afterExpiry t2 w = w).
    { rewrite afterExpiry_eq; unfold isExpired; rewrite Hs; reflexivity. }
    unfold claim; rewrite !bind_expire, Hn.
    destruct w as [[st x ln ua ce pi] paused seed tms log]; cbn in Hp, Hs |- *; subst.
    unfold bind, getStore, ret, modifyStore, touch, now, resumeChatTimer, getPaused; cbn.
    rewrite !Nat.eqb_refl; cbn; repeat split.
Qed.

Lemma stale_paused_remaining_carries_over_witness :
  chatExpiresAt (store (snd (resumeChatTimer 1%nat 13000
                               (snd (claim 1%nat "Bob" 12000 staleWorld))))) = Some (13000 + 50000).
Proof.
  destruct (stale_paused_remaining_carries_over 50000 11000 12000 13000 0%nat "Bob" staleWorld
              eq_refl) as (_ & _ & _ & H).
  destruct H as (_ & _ & _ & H); [reflexivity|].
  exact H.
Defined.

(** ** Further properties of the module and of its callers *)

Lemma step_storeInv (e : Event) (t : Z) (w : World) :
  storeInv w -> storeInv (snd (runEvent e t w)).
Proof.
  destruct w as [[st sid ln ua ce [p1 p2 p3 p4 p5 p6 p7]] paused seed tms log].
  unfold storeInv; cbn; intros (H1 & H2 & H3 & H4).
  destruct e as [o|]; [destruct o|]; cbn; unfold_ops; cbn; crush;
    repeat split; intros;
    try (apply Forall_app; split; [assumption | constructor; [|constructor]]);
    intuition congruence.
Qed.

Lemma reachable_storeInv (w : World) : reachable w -> storeInv w.
Proof.
  induction 1 as [t0|w e t _ IH].
  - unfold storeInv; cbn; repeat split; intros; try constructor; intuition congruence.
  - apply step_storeInv, IH.
Qed.

Lemma bind_getSnapshot {A : Type} (k : VendingStore -> M A) (t : Z) (w : World) :
  bind getSnapshot k t w = k (store (afterExpiry t w)) t (afterExpiry t w).
Proof. unfold bind at 1; rewrite getSnapshot_eq; reflexivity. Qed.

Lemma reachable_afterExpiry (t : Z) (w : World) : reachable w -> reachable (afterExpiry t w).
Proof.
  intros H.
  replace (afterExpiry t w) with (snd (runEvent (Call OGetSnapshot) t w)).
  - apply reach_step, H.
  - unfold runEvent, runOp; unfold bind at 1; unfold bind at 1; rewrite getSnapshot_eq; reflexivity.
Qed.

Lemma afterExpiry_idem (t : Z) (w : World) : afterExpiry t (afterExpiry t w) = afterExpiry t w.
Proof.
  rewrite (afterExpiry_eq t w); destruct (isExpired t (store w)) eqn:E.
  - rewrite resetToIdle_eq, afterExpiry_eq; reflexivity.
  - rewrite afterExpiry_eq, E; reflexivity.
Qed.

Lemma deadlinePassed_mono (t t' : Z) (d : option Z) :
  t <= t' -> deadlinePassed t d = true -> deadlinePassed t' d = true.
Proof. destruct d as [x|]; cbn; [rewrite !Z.leb_le; lia | discriminate]. Qed.

(** X: no function of the module and no timer callback ever moves the
    machine into PAYMENT_PENDING. *)
Theorem reachable_never_payment_pending (w : World) :
  reachable w -> state (store w) <> PAYMENT_PENDING.
Proof. intros H; apply (reachable_storeInv w H). Qed.

Lemma reachable_never_payment_pending_witness :
  state (store (runTrace paymentThenDispense (initWorld 0))) <> PAYMENT_PENDING.
Proof.
  exact (reachable_never_payment_pending _ (runTrace_reachable _ _ (reach_init 0))).
Defined.

(** X: in every reachable world an IDLE store has no occupant name and no
    chat deadline, and a CHATTING or DISPENSING store has an occupant name. *)
Theorem reachable_occupant_fields (w : World) :
  reachable w ->
  (state (store w) = IDLE -> lockedByName (store w) = None /\ chatExpiresAt (store w) = None)
  /\ (state (store w) = CHATTING \/ state (store w) = DISPENSING -> lockedByName (store w) <> None).
Proof. intros H; destruct (reachable_storeInv w H) as (_ & H2 & H3 & _); exact (conj H2 H3). Qed.

Lemma reachable_occupant_fields_witness :
  (state (store (runTrace paymentThenCancel (initWorld 0))) = IDLE ->
   lockedByName (store (runTrace paymentThenCancel (initWorld 0))) = None
   /\ chatExpiresAt (store (runTrace paymentThenCancel (initWorld 0))) = None)
  /\ (state (store (runTrace paymentThenCancel (initWorld 0))) = CHATTING
      \/ state (store (runTrace paymentThenCancel (initWorld 0))) = DISPENSING ->
      lockedByName (store (runTrace paymentThenCancel (initWorld 0))) <> None).
Proof.
  exact (reachable_occupant_fields _ (runTrace_reachable _ _ (reach_init 0))).
Defined.

(** X: every physical dispense triggered in a reachable world was logged for
    a named occupant, never for [null]. *)
Theorem reachable_dispense_log_names_occupant (w : World) :
  reachable w -> Forall (fun x => x <> None) (dispenseLog w).
Proof. intros H; apply (reachable_storeInv w H). Qed.

Lemma reachable_dispense_log_names_occupant_witness :
  Forall (fun x => x <> None) (dispenseLog (runTrace paymentThenDispense (initWorld 0))).
Proof.
  exact (reachable_dispense_log_names_occupant _ (runTrace_reachable _ _ (reach_init 0))).
Defined.

(** X: in every reachable world [transitionToChatting] fails, whatever the
    id presented, and changes nothing. *)
Theorem transitionToChatting_never_succeeds (sid : SessionId) (t : Z) (w : World) :
  reachable w -> exists f, transitionToChatting sid t w = (Err f, w).
Proof.
  intros H; destruct (reachable_storeInv w H) as [Hpp _].
  destruct w as [[st x ln ua ce pi] paused seed tms log]; cbn in Hpp.
  unfold transitionToChatting, bind, getStore, ret; cbn.
  destruct (sid =? x)%nat; cbn; [destruct st; cbn; try congruence|]; eexists; reflexivity.
Qed.

Lemma transitionToChatting_never_succeeds_witness :
  exists f, transitionToChatting 0%nat 2500 (runTrace paymentThenDispense (initWorld 0))
            = (Err f, runTrace paymentThenDispense (initWorld 0)).
Proof.
  exact (transitionToChatting_never_succeeds 0%nat 2500 _
           (runTrace_reachable _ _ (reach_init 0))).
Defined.

(** X: in every reachable world, a tick of the payment poller changes
    nothing beyond the expiry check of its [getSnapshot]: its settling branch
    requires PAYMENT_PENDING, so it never clears the payment record nor
    resumes the chat. *)
Theorem pollOrderStatus_changes_nothing (sid : SessionId) (status : string) (t : Z) (w : World) :
  reachable w ->
  snd (pollOrderStatus sid status t w) = w \/ snd (pollOrderStatus sid status t w) = afterExpiry t w.
Proof.
  intros H.
  destruct (reachable_storeInv _ (reachable_afterExpiry t w H)) as [Hpp _].
  assert (E : state_eqb (state (store (afterExpiry t w))) PAYMENT_PENDING = false).
  { destruct (state (store (afterExpiry t w))); cbn; congruence. }
  unfold pollOrderStatus.
  destruct (String.eqb status "paid" || String.eqb status "processed");
    [|destruct (String.eqb status "cancelled" || String.eqb status "expired")];
    rewrite ?bind_getSnapshot, ?E, ?andb_false_r; cbn; auto.
Qed.

Lemma pollOrderStatus_changes_nothing_witness :
  snd (pollOrderStatus 0%nat "paid" 3000 (runTrace paymentThenCancel (initWorld 0)))
    = runTrace paymentThenCancel (initWorld 0)
  \/ snd (pollOrderStatus 0%nat "paid" 3000 (runTrace paymentThenCancel (initWorld 0)))
    = afterExpiry 3000 (runTrace paymentThenCancel (initWorld 0)).
Proof.
  exact (pollOrderStatus_changes_nothing 0%nat "paid" 3000 _
           (runTrace_reachable _ _ (reach_init 0))).
Defined.

(** After one settling branch there is nothing left for it to settle: the
    store is not PAYMENT_PENDING, and a CHATTING store no longer matches. *)
Lemma settle_settled (m : option string -> bool) (t : Z) (w : World) :
  m None = false ->
  state (store (snd (settleSnapshot m t w))) <> PAYMENT_PENDING
  /\ (state (store (snd (settleSnapshot m t w))) = CHATTING ->
      m (preferenceId (paymentInfo (store (snd (settleSnapshot m t w))))) = false).
Proof.
  intros Hm; unfold settleSnapshot; rewrite bind_getSnapshot.
  generalize (afterExpiry t w); intros w0.
  destruct w0 as [[st x ln ua ce pi] paused seed tms log]; cbn.
  destruct (state_eqb st CHATTING && m (preferenceId pi)) eqn:E1.
  - destruct st; try discriminate; cbn.
    unfold clearPaymentInfo, resumeChatTimerAfterPayment, resumeChatTimer, bind, getStore, ret,
      modifyStore, touch, now, getPaused, setPaused; cbn; repeat (rewrite Nat.eqb_refl; cbn).
    destruct paused; cbn; split; first [congruence | intros _; exact Hm].
  - destruct (state_eqb st PAYMENT_PENDING) eqn:E2.
    + destruct st; try discriminate; cbn.
      unfold clearPaymentInfo, transitionToChatting, resumeChatTimer, bind, getStore, ret,
        modifyStore, touch, now, getPaused, setPaused; cbn; repeat (rewrite Nat.eqb_refl; cbn).
      destruct paused; cbn; split; first [congruence | intros _; exact Hm].
    + cbn; split.
      * intros ->; discriminate E2.
      * intros ->; exact E1.
Qed.

(** A settling branch on a store with nothing to settle only runs the
    expiry check of its [getSnapshot], at whatever time it runs. *)
Lemma settle_noop (m : option string -> bool) (t : Z) (w : World) :
  m None = false -> state (store w) <> PAYMENT_PENDING ->
  (state (store w) = CHATTING -> m (preferenceId (paymentInfo (store w))) = false) ->
  settleSnapshot m t w = (tt, afterExpiry t w).
Proof.
  intros Hm Hs Hc; unfold settleSnapshot; rewrite bind_getSnapshot.
  rewrite (afterExpiry_eq t w); destruct (isExpired t (store w)).
  - rewrite resetToIdle_eq; reflexivity.
  - destruct w as [[st x ln ua ce pi] paused seed tms log]; cbn in Hs, Hc |- *.
    destruct st; cbn; try reflexivity; [|congruence].
    rewrite (Hc eq_refl); reflexivity.
Qed.

Lemma settle_redelivered (m : option string -> bool) (t t' : Z) (w : World) :
  m None = false ->
  snd (settleSnapshot m t' (snd (settleSnapshot m t w))) = afterExpiry t' (snd (settleSnapshot m t w)).
Proof.
  intros Hm; destruct (settle_settled m t w Hm) as [H1 H2].
  rewrite (settle_noop m t' _ Hm H1 H2); reflexivity.
Qed.

Lemma webhookOrderEvent_settles (orderId status : string) :
  In status ["paid"; "cancelled"; "expired"]%string ->
  webhookOrderEvent orderId status = settleSnapshot (sameOrderId orderId).
Proof. intros [<-|[<-|[<-|[]]]]; reflexivity. Qed.

Lemma webhookPaymentEvent_settles (status : string) :
  In status ["approved"; "rejected"; "cancelled"]%string ->
  webhookPaymentEvent status = settleSnapshot truthyString.
Proof. intros [<-|[<-|[<-|[]]]]; reflexivity. Qed.

(** X: a redelivered webhook notification (same order, same final status),
    arriving at any later time, changes nothing beyond the expiry check of
    its [getSnapshot]: the first delivery left nothing to settle. *)
Theorem webhook_redelivery_only_expires (orderId status : string) (t t' : Z) (w : World) :
  (In status ["paid"; "cancelled"; "expired"]%string ->
   snd (webhookOrderEvent orderId status t' (snd (webhookOrderEvent orderId status t w)))
   = afterExpiry t' (snd (webhookOrderEvent orderId status t w)))
  /\ (In status ["approved"; "rejected"; "cancelled"]%string ->
      snd (webhookPaymentEvent status t' (snd (webhookPaymentEvent status t w)))
      = afterExpiry t' (snd (webhookPaymentEvent status t w))).
Proof.
  split; intros Hin.
  - rewrite (webhookOrderEvent_settles _ _ Hin); apply settle_redelivered; reflexivity.
  - rewrite (webhookPaymentEvent_settles _ Hin); apply settle_redelivered; reflexivity.
Qed.

Lemma webhook_redelivery_only_expires_witness :
  snd (webhookOrderEvent "ORD1" "paid" 90000 (snd (webhookOrderEvent "ORD1" "paid" 3000 orderWorld)))
  = afterExpiry 90000 (snd (webhookOrderEvent "ORD1" "paid" 3000 orderWorld)).
Proof.
  exact (proj1 (webhook_redelivery_only_expires "ORD1" "paid" 3000 90000 orderWorld) (or_introl eq_refl)).
Defined.

(** The effect of a settling branch on a CHATTING store, after its expiry check. *)
Lemma settle_chatting (m : option string -> bool) (t : Z) (w : World) :
  let w0 := afterExpiry t w in
  let w1 := snd (settleSnapshot m t w) in
  (state (store w0) = CHATTING -> m (preferenceId (paymentInfo (store w0))) = true ->
   store w1 = mkStore CHATTING (sessionId (store w0)) (lockedByName (store w0)) t
                (match pausedTimeRemaining w0 with
                 | Some r => Some (t + r)
                 | None => chatExpiresAt (store w0)
                 end)
                emptyPaymentInfo
   /\ pausedTimeRemaining w1 = None /\ idSeed w1 = idSeed w0
   /\ timers w1 = timers w0 /\ dispenseLog w1 = dispenseLog w0)
  /\ (state (store w0) <> PAYMENT_PENDING ->
      (state (store w0) <> CHATTING \/ m (preferenceId (paymentInfo (store w0))) = false) ->
      w1 = w0).
Proof.
  cbn zeta; unfold settleSnapshot; rewrite bind_getSnapshot.
  generalize (afterExpiry t w); intros w0.
  destruct w0 as [[st x ln ua ce pi] paused seed tms log]; cbn.
  split.
  - intros -> Hm; rewrite Hm; cbn.
    unfold clearPaymentInfo, resumeChatTimerAfterPayment, resumeChatTimer, bind, getStore, ret,
      modifyStore, touch, now, getPaused, setPaused; cbn; repeat (rewrite Nat.eqb_refl; cbn).
    destruct paused; cbn; repeat split.
  - intros Hpp Hor.
    destruct (state_eqb st CHATTING && m (preferenceId pi)) eqn:E.
    + apply andb_true_iff in E; destruct E as [E1 E2]; apply state_eqb_true in E1.
      destruct Hor; congruence.
    + destruct st; cbn; congruence.
Qed.

(** X: an order notification with a final status ("paid", "cancelled" or
    "expired") for the order recorded in a CHATTING store clears the payment
    record and resumes the chat timer with the remaining time held (keeping
    the session, the occupant and the state); when the store is not
    CHATTING, or records another order, it changes nothing beyond the expiry
    check (the machine is never PAYMENT_PENDING in a reachable world). *)
Theorem webhook_order_settles_matching_preference (orderId status : string) (t : Z) (w : World) :
  In status ["paid"; "cancelled"; "expired"]%string ->
  (state (store (afterExpiry t w)) = CHATTING ->
   preferenceId (paymentInfo (store (afterExpiry t w))) = Some orderId ->
   store (snd (webhookOrderEvent orderId status t w))
   = mkStore CHATTING (sessionId (store (afterExpiry t w))) (lockedByName (store (afterExpiry t w))) t
       (match pausedTimeRemaining (afterExpiry t w) with
        | Some r => Some (t + r)
        | None => chatExpiresAt (store (afterExpiry t w))
        end)
       emptyPaymentInfo
   /\ pausedTimeRemaining (snd (webhookOrderEvent orderId status t w)) = None)
  /\ (state (store (afterExpiry t w)) <> PAYMENT_PENDING ->
      preferenceId (paymentInfo (store (afterExpiry t w))) <> Some orderId ->
      snd (webhookOrderEvent orderId status t w) = afterExpiry t w).
Proof.
  intros Hin; rewrite (webhookOrderEvent_settles _ _ Hin).
  destruct (settle_chatting (sameOrderId orderId) t w) as [H1 H2]; cbn zeta in H1, H2.
  split.
  - intros Hs Hp; destruct (H1 Hs) as (-> & -> & _); [|split; reflexivity].
    rewrite Hp; cbn; apply String.eqb_refl.
  - intros Hs Hp; apply H2; [exact Hs|right].
    destruct (preferenceId (paymentInfo (store (afterExpiry t w)))) as [p|]; cbn; [|reflexivity].
    apply String.eqb_neq; congruence.
Qed.

Lemma webhook_order_settles_matching_preference_witness :
  store (snd (webhookOrderEvent "ORD1" "paid" 3000 orderWorld))
  = mkStore CHATTING (sessionId (store (afterExpiry 3000 orderWorld)))
      (lockedByName (store (afterExpiry 3000 orderWorld))) 3000
      (match pausedTimeRemaining (afterExpiry 3000 orderWorld) with
       | Some r => Some (3000 + r)
       | None => chatExpiresAt (store (afterExpiry 3000 orderWorld))
       end)
      emptyPaymentInfo
  /\ pausedTimeRemaining (snd (webhookOrderEvent "ORD1" "paid" 3000 orderWorld)) = None.
Proof.
  exact (proj1 (webhook_order_settles_matching_preference "ORD1" "paid" 3000 orderWorld
                  (or_introl eq_refl)) eq_refl eq_refl).
Defined.

(** X: a payment notification with status "approved", "rejected" or
    "cancelled" settles the payment of a CHATTING store whatever payment it
    is about: any non-empty recorded preference id is enough, so the
    payment record is cleared and the chat timer resumed; with no (or an
    empty) preference id it changes nothing beyond the expiry check. *)
Theorem webhook_payment_settles_any_preference (status : string) (p : string) (t : Z) (w : World) :
  In status ["approved"; "rejected"; "cancelled"]%string ->
  (state (store (afterExpiry t w)) = CHATTING ->
   preferenceId (paymentInfo (store (afterExpiry t w))) = Some p -> p <> EmptyString ->
   paymentInfo (store (snd (webhookPaymentEvent status t w))) = emptyPaymentInfo
   /\ state (store (snd (webhookPaymentEvent status t w))) = CHATTING
   /\ sessionId (store (snd (webhookPaymentEvent status t w))) = sessionId (store (afterExpiry t w))
   /\ chatExpiresAt (store (snd (webhookPaymentEvent status t w)))
      = match pausedTimeRemaining (afterExpiry t w) with
        | Some r => Some (t + r)
        | None => chatExpiresAt (store (afterExpiry t w))
        end)
  /\ (state (store (afterExpiry t w)) <> PAYMENT_PENDING ->
      truthyString (preferenceId (paymentInfo (store (afterExpiry t w)))) = false ->
      snd (webhookPaymentEvent status t w) = afterExpiry t w).
Proof.
  intros Hin; rewrite (webhookPaymentEvent_settles _ Hin).
  destruct (settle_chatting truthyString t w) as [H1 H2]; cbn zeta in H1, H2.
  split.
  - intros Hs Hp Hne; destruct (H1 Hs) as (-> & _); [|repeat split].
    rewrite Hp; cbn; destruct (String.eqb_spec p EmptyString); [contradiction | reflexivity].
  - intros Hs Hp; apply H2; [exact Hs | right; exact Hp].
Qed.

Lemma webhook_payment_settles_any_preference_witness :
  paymentInfo (store (snd (webhookPaymentEvent "approved" 3000 orderWorld))) = emptyPaymentInfo
  /\ state (store (snd (webhookPaymentEvent "approved" 3000 orderWorld))) = CHATTING
  /\ sessionId (store (snd (webhookPaymentEvent "approved" 3000 orderWorld)))
     = sessionId (store (afterExpiry 3000 orderWorld))
  /\ chatExpiresAt (store (snd (webhookPaymentEvent "approved" 3000 orderWorld)))
     = match pausedTimeRemaining (afterExpiry 3000 orderWorld) with
       | Some r => Some (3000 + r)
       | None => chatExpiresAt (store (afterExpiry 3000 orderWorld))
       end.
Proof.
  exact (proj1 (webhook_payment_settles_any_preference "approved" "ORD1" 3000 orderWorld
                  (or_introl eq_refl)) eq_refl eq_refl ltac:(discriminate)).
Defined.

(** X: [resumeChatTimerAfterPayment] behaves exactly as [resumeChatTimer]:
    the same result and the same world on every input (its own guards are
    the ones [resumeChatTimer] repeats). *)
Theorem resumeChatTimerAfterPayment_is_resumeChatTimer (sid : SessionId) (t : Z) (w : World) :
  resumeChatTimerAfterPayment sid t w = resumeChatTimer sid t w.
Proof.
  destruct w as [[st x ln ua ce pi] paused seed tms log].
  unfold resumeChatTimerAfterPayment, resumeChatTimer, bind, getStore, ret, getPaused, now,
    modifyStore, setPaused; cbn.
  destruct (sid =? x)%nat eqn:E; cbn; [|reflexivity].
  destruct st; cbn; try reflexivity; rewrite E; cbn; destruct paused; reflexivity.
Qed.

(** X: the lazy expiry check never touches an IDLE, DISPENSING or DONE
    store, whatever its deadlines: [getSnapshot] then returns the store as
    it is and changes nothing. *)
Theorem expiry_spares_idle_dispensing_done (t : Z) (w : World) :
  state (store w) = IDLE \/ state (store w) = DISPENSING \/ state (store w) = DONE ->
  afterExpiry t w = w /\ getSnapshot t w = (store w, w).
Proof.
  intros Hs.
  assert (E : afterExpiry t w = w).
  { rewrite afterExpiry_eq; unfold isExpired.
    destruct Hs as [->|[->| ->]]; reflexivity. }
  rewrite getSnapshot_eq, E; split; reflexivity.
Qed.

Lemma expiry_spares_idle_dispensing_done_witness :
  afterExpiry 5000000 (snd (dispense 0%nat 3000 chattingWorld)) = snd (dispense 0%nat 3000 chattingWorld)
  /\ getSnapshot 5000000 (snd (dispense 0%nat 3000 chattingWorld))
     = (store (snd (dispense 0%nat 3000 chattingWorld)), snd (dispense 0%nat 3000 chattingWorld)).
Proof.
  exact (expiry_spares_idle_dispensing_done 5000000 (snd (dispense 0%nat 3000 chattingWorld))
           ltac:(right; left; vm_compute; reflexivity)).
Defined.

(** X: two [getSnapshot] calls at the same instant return the same
    snapshot and the second changes nothing; and a store found expired at
    some time is found expired at every later time. *)
Theorem snapshot_stable_at_same_instant (t t' : Z) (w : World) :
  getSnapshot t (snd (getSnapshot t w)) = getSnapshot t w
  /\ (t <= t' -> isExpired t (store w) = true -> isExpired t' (store w) = true).
Proof.
  split.
  - rewrite !getSnapshot_eq; cbn; rewrite afterExpiry_idem; reflexivity.
  - unfold isExpired; intros Hle H.
    destruct (state (store w)); cbn in *; try discriminate;
      repeat match goal with
             | H : _ || _ = true |- _ => apply orb_true_iff in H; destruct H as [H|H]
             end; try discriminate;
      rewrite (deadlinePassed_mono t t' _ Hle H); rewrite ?orb_true_r, ?orb_true_l; reflexivity.
Qed.

Lemma snapshot_stable_at_same_instant_witness :
  isExpired 80000 (store chattingWorld) = true.
Proof.
  exact (proj2 (snapshot_stable_at_same_instant 70000 80000 chattingWorld) ltac:(lia) eq_refl).
Defined.

(** X: on an IDLE machine, [regenerateSessionIfIdle] returns and installs a
    never-issued id: a [claim] with the id shown before is then refused as
    an invalid QR, a [claim] with the returned id succeeds.  On any other
    state it changes nothing and returns the current id. *)
Theorem regenerate_invalidates_shown_id (t t' : Z) (name : string) (w : World) :
  reachable w ->
  (state (store w) = IDLE ->
   fst (regenerateSessionIfIdle t w) = sessionId (store (snd (regenerateSessionIfIdle t w)))
   /\ fst (regenerateSessionIfIdle t w) <> sessionId (store w)
   /\ fst (claim (sessionId (store w)) name t' (snd (regenerateSessionIfIdle t w))) = Err InvalidSession
   /\ fst (claim (fst (regenerateSessionIfIdle t w)) name t' (snd (regenerateSessionIfIdle t w)))
      = Ok tt)
  /\ (state (store w) <> IDLE -> regenerateSessionIfIdle t w = (sessionId (store w), w)).
Proof.
  intros H; pose proof (reachable_idIssued w H) as Hid; unfold idIssued in Hid.
  destruct w as [[st x ln ua ce pi] paused seed tms log]; cbn in Hid |- *.
  split.
  - intros ->.
    change (regenerateSessionIfIdle t (mkWorld (mkStore IDLE x ln ua ce pi) paused seed tms log))
      with (seed, mkWorld (mkStore IDLE seed ln t ce pi) paused (S seed) tms log).
    cbn [fst snd store sessionId].
    unfold claim; rewrite !bind_expire.
    change (afterExpiry t' (mkWorld (mkStore IDLE seed ln t ce pi) paused (S seed) tms log))
      with (mkWorld (mkStore IDLE seed ln t ce pi) paused (S seed) tms log).
    unfold bind, getStore, ret, modifyStore, touch, now; cbn.
    assert (E : (x =? seed)%nat = false) by (apply Nat.eqb_neq; lia).
    rewrite E, Nat.eqb_refl; cbn; repeat split; lia.
  - intros Hs; unfold regenerateSessionIfIdle, bind, getStore, ret.
    destruct st; cbn; congruence.
Qed.

Lemma regenerate_invalidates_shown_id_witness :
  fst (claim 0%nat "Ana" 100 (snd (regenerateSessionIfIdle 50 (initWorld 0)))) = Err InvalidSession.
Proof.
  destruct (regenerate_invalidates_shown_id 50 100 "Ana" (initWorld 0) (reach_init 0)) as [H _].
  exact (proj1 (proj2 (proj2 (H eq_refl)))).
Defined.

(** X: a [claim] with the store's id on a machine that is IDLE after the
    expiry check succeeds and opens a chat window of CHAT_TTL_MS: the store
    becomes CHATTING with the caller's name and deadline now + 60000, and
    keeps whatever payment record it held.  [canSendChat] with that id then
    succeeds exactly while the window is open and that kept payment record
    has no passed payment deadline. *)
Theorem claim_opens_chat_window (sid : SessionId) (name : string) (t t' : Z) (w : World) :
  reachable w ->
  state (store (afterExpiry t w)) = IDLE -> sid = sessionId (store (afterExpiry t w)) ->
  fst (claim sid name t w) = Ok tt
  /\ store (snd (claim sid name t w))
     = mkStore CHATTING sid (Some name) t (Some (t + CHAT_TTL_MS)) (paymentInfo (store (afterExpiry t w)))
  /\ (isOk (fst (canSendChat sid t' (snd (claim sid name t w)))) = true
      <-> t' < t + CHAT_TTL_MS
          /\ deadlinePassed t' (paymentExpiresAt (paymentInfo (store (afterExpiry t w)))) = false).
Proof.
  intros H Hs Hsid.
  pose proof (reachable_idIssued _ (reachable_afterExpiry t w H)) as Hid; unfold idIssued in Hid.
  unfold claim, canSendChat; rewrite !bind_expire.
  revert Hs Hsid Hid; generalize (afterExpiry t w); intros w0 Hs Hsid Hid.
  destruct w0 as [[st x ln ua ce pi] paused seed tms log]; cbn in Hs, Hsid, Hid |- *; subst.
  unfold bind, getStore, ret, modifyStore, touch, now; cbn; rewrite Nat.eqb_refl; cbn.
  split; [reflexivity|split; [reflexivity|]].
  unfold set_store, set_updatedAt, set_chatExpiresAt, set_lockedByName, set_state; cbn.
  rewrite afterExpiry_eq; unfold isExpired; cbn -[resetToIdle].
  unfold CHAT_TTL_MS.
  destruct (t + 60000 <=? t') eqn:E1; cbn -[resetToIdle].
  - rewrite resetToIdle_eq; cbn.
    assert (E : (x =? seed)%nat = false) by (apply Nat.eqb_neq; lia).
    rewrite E; cbn; split; [discriminate|]. intros [Hlt _]; apply Z.leb_le in E1; lia.
  - destruct (deadlinePassed t' (paymentExpiresAt pi)) eqn:E2; cbn -[resetToIdle].
    + rewrite resetToIdle_eq; cbn.
      assert (E : (x =? seed)%nat = false) by (apply Nat.eqb_neq; lia).
      rewrite E; cbn; split; [discriminate|]. intros [_ Hf]; discriminate.
    + rewrite Nat.eqb_refl; cbn; split; [intros _; split; [apply Z.leb_gt in E1; lia|reflexivity]|reflexivity].
Qed.

Lemma claim_opens_chat_window_witness :
  isOk (fst (canSendChat 0%nat 60999 (snd (claim 0%nat "Ana" 1000 (initWorld 0))))) = true
  <-> 60999 < 1000 + CHAT_TTL_MS
      /\ deadlinePassed 60999 (paymentExpiresAt (paymentInfo (store (afterExpiry 1000 (initWorld 0)))))
         = false.
Proof.
  exact (proj2 (proj2 (claim_opens_chat_window 0%nat "Ana" 1000 60999 (initWorld 0)
                         (reach_init 0) eq_refl eq_refl))).
Defined.

(** X: the auto-advance queued by [dispense] checks neither the state nor
    the session when it fires: whatever the machine is doing (for instance
    chatting with the next occupant after a cancel and a new claim), it sets
    DONE, keeping that session id and occupant, and queues the reset to IDLE
    2000 ms later. *)
Theorem dispense_timer_fires_whatever_the_session (d t : Z) (rest : list Timer) (w : World) :
  timers w = mkTimer d AdvanceToDone :: rest -> d <= t ->
  store (snd (runEvent TimerTick t w)) = set_updatedAt t (set_state DONE (store w))
  /\ timers (snd (runEvent TimerTick t w)) = insertTimer (mkTimer (t + 2000) ResetAfterDone) rest
  /\ pausedTimeRemaining (snd (runEvent TimerTick t w)) = pausedTimeRemaining w
  /\ idSeed (snd (runEvent TimerTick t w)) = idSeed w.
Proof.
  intros Ht Hd.
  destruct w as [s paused seed tms log]; cbn in Ht; subst tms.
  unfold runEvent, runDueTimer, bind, ret; cbn.
  apply Z.leb_le in Hd; rewrite Hd; cbn.
  repeat split.
Qed.

Lemma dispense_timer_fires_whatever_the_session_witness :
  store (snd (runEvent TimerTick 2000 reclaimedWorld))
  = set_updatedAt 2000 (set_state DONE (store reclaimedWorld))
  /\ timers (snd (runEvent TimerTick 2000 reclaimedWorld))
     = insertTimer (mkTimer (2000 + 2000) ResetAfterDone) []
  /\ pausedTimeRemaining (snd (runEvent TimerTick 2000 reclaimedWorld)) = pausedTimeRemaining reclaimedWorld
  /\ idSeed (snd (runEvent TimerTick 2000 reclaimedWorld)) = idSeed reclaimedWorld.
Proof.
  exact (dispense_timer_fires_whatever_the_session 2000 2000 [] reclaimedWorld eq_refl
           ltac:(lia)).
Defined.

(** X: a successful [dispense] with no other timer pending runs the whole
    cycle by itself: nothing fires before now + 1000; at now + 1000 the
    machine is DONE under the same session; at now + 3000 it is IDLE with a
    fresh session id (the counter's next value), no occupant, no chat
    deadline, the all-null payment record and no timer left. *)
Theorem dispense_cycle_returns_to_idle (sid : SessionId) (t : Z) (w : World) :
  sid = sessionId (store (afterExpiry t w)) -> state (store (afterExpiry t w)) = CHATTING ->
  timers (afterExpiry t w) = [] ->
  (forall t', t' < t + 1000 ->
     snd (runEvent TimerTick t' (snd (dispense sid t w))) = snd (dispense sid t w))
  /\ state (store (runTrace [(t + 1000, TimerTick)] (snd (dispense sid t w)))) = DONE
  /\ sessionId (store (runTrace [(t + 1000, TimerTick)] (snd (dispense sid t w)))) = sid
  /\ store (runTrace [(t + 1000, TimerTick); (t + 3000, TimerTick)] (snd (dispense sid t w)))
     = mkStore IDLE (idSeed (afterExpiry t w)) None (t + 3000) None emptyPaymentInfo
  /\ timers (runTrace [(t + 1000, TimerTick); (t + 3000, TimerTick)] (snd (dispense sid t w))) = [].
Proof.
  intros Hsid Hs Ht.
  unfold dispense; rewrite bind_expire.
  revert Hsid Hs Ht; generalize (afterExpiry t w); intros w0 Hsid Hs Ht.
  destruct w0 as [[st x ln ua ce pi] paused seed tms log]; cbn in Hsid, Hs, Ht |- *; subst.
  unfold bind, getStore, ret, modifyStore, logDispense, touch, now, setTimeout; cbn.
  rewrite Nat.eqb_refl; cbn.
  unfold runEvent, runDueTimer, bind, ret; cbn.
  assert (E1 : (t + 1000 <=? t + 1000) = true) by (apply Z.leb_le; lia).
  assert (E2 : (t + 1000 + 2000 <=? t + 3000) = true) by (apply Z.leb_le; lia).
  rewrite E1; cbn; rewrite E2; cbn.
  repeat split.
  intros t' Hlt.
  assert (E3 : (t + 1000 <=? t') = false) by (apply Z.leb_gt; lia).
  rewrite E3; reflexivity.
Qed.

Lemma dispense_cycle_returns_to_idle_witness :
  store (runTrace [(3000 + 1000, TimerTick); (3000 + 3000, TimerTick)]
           (snd (dispense 0%nat 3000 chattingWorld)))
  = mkStore IDLE (idSeed (afterExpiry 3000 chattingWorld)) None (3000 + 3000) None emptyPaymentInfo.
Proof.
  destruct (dispense_cycle_returns_to_idle 0%nat 3000 chattingWorld eq_refl eq_refl eq_refl)
    as (_ & _ & _ & H & _).
  exact H.
Defined.

(** X: with the store's id, [clearPaymentInfo] succeeds in every state and
    changes only the payment record (now all null) and [updatedAt]; a later
    [getPaymentInfo] returns the all-null record.  After a successful
    [setPaymentInfo], [getPaymentInfo] returns the caller's record with the
    stamped window.  [getPaymentInfo] never changes the world. *)
Theorem payment_info_round_trips (sid : SessionId) (info : PaymentInfo) (t t' : Z) (w : World) :
  (forall sid' t'', snd (getPaymentInfo sid' t'' w) = w)
  /\ (sid = sessionId (store w) ->
      fst (clearPaymentInfo sid t w) = Ok tt
      /\ snd (clearPaymentInfo sid t w)
         = set_store (set_updatedAt t (set_paymentInfo emptyPaymentInfo (store w))) w
      /\ fst (getPaymentInfo sid t' (snd (clearPaymentInfo sid t w))) = Ok emptyPaymentInfo)
  /\ (sid = sessionId (store w) -> state (store w) = CHATTING ->
      fst (getPaymentInfo sid t' (snd (setPaymentInfo sid info t w))) = Ok (stampPaymentInfo info t)).
Proof.
  destruct w as [[st x ln ua ce pi] paused seed tms log].
  unfold getPaymentInfo, clearPaymentInfo, setPaymentInfo, bind, getStore, ret, modifyStore, touch,
    now; cbn.
  split; [|split].
  - intros sid' t''; destruct (sid' =? x)%nat; reflexivity.
  - intros ->; repeat (rewrite Nat.eqb_refl; cbn); repeat split.
  - intros -> ->; repeat (rewrite Nat.eqb_refl; cbn); reflexivity.
Qed.

Lemma payment_info_round_trips_witness :
  fst (getPaymentInfo 0%nat 2500 (snd (setPaymentInfo 0%nat info0 2000 chattingWorld)))
  = Ok (stampPaymentInfo info0 2000).
Proof.
  exact (proj2 (proj2 (payment_info_round_trips 0%nat info0 2000 2500 chattingWorld))
           eq_refl eq_refl).
Defined.

Section SignatureHeader.
Local Open Scope string_scope.

Lemma allChars_app (p : ascii -> bool) (a b : string) :
  allChars p (a ++ b) = allChars p a && allChars p b.
Proof. induction a as [|x a IH]; cbn; [reflexivity|]; rewrite IH, andb_assoc; reflexivity. Qed.

Lemma allChars_impl (p q : ascii -> bool) (s : string) :
  (forall a, p a = true -> q a = true) -> allChars p s = true -> allChars q s = true.
Proof.
  intros Hpq; induction s as [|x s IH]; cbn; [reflexivity|].
  rewrite !andb_true_iff; intros [H1 H2]; split; auto.
Qed.

Lemma splitOn_none (c : ascii) (s : string) :
  allChars (fun x => negb (Ascii.eqb x c)) s = true -> splitOn c s = [s].
Proof.
  induction s as [|x s IH]; cbn; [reflexivity|].
  rewrite andb_true_iff; intros [H1 H2].
  destruct (Ascii.eqb x c); [discriminate|]; rewrite IH by exact H2; reflexivity.
Qed.

Lemma splitOn_sep (c : ascii) (s1 s2 : string) :
  allChars (fun x => negb (Ascii.eqb x c)) s1 = true ->
  splitOn c (s1 ++ String c s2) = s1 :: splitOn c s2.
Proof.
  induction s1 as [|x s1 IH]; cbn.
  - rewrite Ascii.eqb_refl; reflexivity.
  - rewrite andb_true_iff; intros [H1 H2].
    destruct (Ascii.eqb x c); [discriminate|]; rewrite IH by exact H2; reflexivity.
Qed.

Lemma dropSpaces_id (l : list ascii) :
  Forall (fun a => isJsSpace a = false) l -> dropSpaces l = l.
Proof. intros F; destruct F as [|a l Ha _]; cbn; [reflexivity|]; rewrite Ha; reflexivity. Qed.

Lemma trim_id (s : string) : allChars (fun a => negb (isJsSpace a)) s = true -> trim s = s.
Proof.
  intros H.
  assert (F : Forall (fun a => isJsSpace a = false) (list_ascii_of_string s)).
  { induction s as [|x s IH]; cbn in *; constructor;
      apply andb_true_iff in H; destruct H as [H1 H2]; [apply negb_true_iff, H1 | apply IH, H2]. }
  unfold trim; rewrite (dropSpaces_id _ F), (dropSpaces_id _ (Forall_rev F)), rev_involutive.
  apply string_of_list_ascii_of_string.
Qed.

Ltac plain_parts H :=
  let N := fresh "N" in let C := fresh "C" in let E := fresh "E" in
  assert (N : allChars (fun a => negb (isJsSpace a)) _ = true)
    by (refine (allChars_impl _ _ _ _ H); intros a;
        destruct (isJsSpace a), (Ascii.eqb a ","), (Ascii.eqb a "="); cbn; congruence);
  assert (C : allChars (fun a => negb (Ascii.eqb a ",")) _ = true)
    by (refine (allChars_impl _ _ _ _ H); intros a;
        destruct (isJsSpace a), (Ascii.eqb a ","), (Ascii.eqb a "="); cbn; congruence);
  assert (E : allChars (fun a => negb (Ascii.eqb a "=")) _ = true)
    by (refine (allChars_impl _ _ _ _ H); intros a;
        destruct (isJsSpace a), (Ascii.eqb a ","), (Ascii.eqb a "="); cbn; congruence).

Lemma entryOf_plain (k v : string) :
  plainToken k = true -> plainToken v = true -> entryOf (k ++ String "=" v) = (k, Some v).
Proof.
  unfold plainToken; intros Hk Hv; plain_parts Hk; plain_parts Hv.
  unfold entryOf; rewrite splitOn_sep by assumption; rewrite splitOn_none by assumption.
  cbn; rewrite !trim_id by assumption; reflexivity.
Qed.

Lemma plainToken_pair (k v : string) :
  plainToken k = true -> plainToken v = true ->
  allChars (fun a => negb (isJsSpace a)) (k ++ String "=" v) = true
  /\ allChars (fun a => negb (Ascii.eqb a ",")) (k ++ String "=" v) = true.
Proof.
  unfold plainToken; intros Hk Hv; plain_parts Hk; plain_parts Hv.
  rewrite !allChars_app; cbn; rewrite N, C, N0, C0; split; reflexivity.
Qed.

(** The parse of a header made of the two entries [k1=v1,k2=v2]. *)
Lemma parse_two_entries (k1 v1 k2 v2 : string) :
  plainToken k1 = true -> plainToken v1 = true -> plainToken k2 = true -> plainToken v2 = true ->
  parseSignatureHeader (Some (k1 ++ String "=" (v1 ++ String "," (k2 ++ String "=" v2))))
  = let map := [(k1, Some v1); (k2, Some v2)] in
    match lookupLast "ts" map, lookupLast "v1" map with
    | Some ts, Some v => if truthyString (Some ts) && truthyString (Some v) then Some (ts, v) else None
    | _, _ => None
    end.
Proof.
  intros H1 H2 H3 H4.
  destruct (plainToken_pair k1 v1 H1 H2) as [N1 C1].
  destruct (plainToken_pair k2 v2 H3 H4) as [N2 C2].
  unfold parseSignatureHeader.
  replace (k1 ++ String "=" (v1 ++ String "," (k2 ++ String "=" v2)))%string
    with ((k1 ++ String "=" v1) ++ String "," (k2 ++ String "=" v2))%string
    by (clear; induction k1 as [|x k1 IH]; cbn; [reflexivity | rewrite IH; reflexivity]).
  destruct (String.eqb_spec ((k1 ++ String "=" v1) ++ String "," (k2 ++ String "=" v2)) EmptyString)
    as [Hemp|_].
  { destruct k1; discriminate Hemp. }
  rewrite splitOn_sep by exact C1; rewrite splitOn_none by exact C2.
  cbn [map]; rewrite !trim_id by assumption.
  rewrite !entryOf_plain by assumption.
  reflexivity.
Qed.

Lemma parse_one_entry (k v : string) :
  plainToken k = true -> plainToken v = true ->
  parseSignatureHeader (Some (k ++ String "=" v))
  = match lookupLast "ts" [(k, Some v)], lookupLast "v1" [(k, Some v)] with
    | Some ts, Some v' => if truthyString (Some ts) && truthyString (Some v') then Some (ts, v') else None
    | _, _ => None
    end.
Proof.
  intros H1 H2; destruct (plainToken_pair k v H1 H2) as [N1 C1].
  unfold parseSignatureHeader.
  destruct (String.eqb_spec (k ++ String "=" v) EmptyString) as [Hemp|_].
  { destruct k; discriminate Hemp. }
  rewrite splitOn_none by exact C1.
  cbn [map]; rewrite !trim_id by assumption.
  rewrite !entryOf_plain by assumption.
  reflexivity.
Qed.

(** X: the signature header of the form [ts=<ts>,v1=<hash>] (in either
    order) parses to its two values, for non-empty values without
    whitespace, commas or equal signs; a header without [v1] parses to
    [null]. *)
Theorem signature_header_round_trip (ts v1 : string) :
  plainToken ts = true -> plainToken v1 = true -> ts <> EmptyString -> v1 <> EmptyString ->
  parseSignatureHeader (Some ("ts=" ++ ts ++ ",v1=" ++ v1)) = Some (ts, v1)
  /\ parseSignatureHeader (Some ("v1=" ++ v1 ++ ",ts=" ++ ts)) = Some (ts, v1)
  /\ parseSignatureHeader (Some ("ts=" ++ ts)) = None.
Proof.
  intros H1 H2 Hn1 Hn2.
  assert (T1 : truthyString (Some ts) = true)
    by (cbn; destruct (String.eqb_spec ts EmptyString); [contradiction | reflexivity]).
  assert (T2 : truthyString (Some v1) = true)
    by (cbn; destruct (String.eqb_spec v1 EmptyString); [contradiction | reflexivity]).
  split; [|split].
  - change ("ts=" ++ ts ++ ",v1=" ++ v1)%string
      with ("ts" ++ String "=" (ts ++ String "," ("v1" ++ String "=" v1)))%string.
    rewrite parse_two_entries by (reflexivity || assumption).
    cbn [lookupLast fold_left fst snd String.eqb Ascii.eqb Bool.eqb]; rewrite T1, T2; reflexivity.
  - change ("v1=" ++ v1 ++ ",ts=" ++ ts)%string
      with ("v1" ++ String "=" (v1 ++ String "," ("ts" ++ String "=" ts)))%string.
    rewrite parse_two_entries by (reflexivity || assumption).
    cbn [lookupLast fold_left fst snd String.eqb Ascii.eqb Bool.eqb]; rewrite T1, T2; reflexivity.
  - change ("ts=" ++ ts)%string with ("ts" ++ String "=" ts)%string.
    rewrite parse_one_entry by (reflexivity || assumption).
    reflexivity.
Qed.

Lemma signature_header_round_trip_witness :
  parseSignatureHeader (Some ("ts=" ++ "1704908010" ++ ",v1=" ++ "618c8534"))
  = Some ("1704908010", "618c8534")%string.
Proof.
  exact (proj1 (signature_header_round_trip "1704908010" "618c8534" eq_refl eq_refl
                  ltac:(discriminate) ltac:(discriminate))).
Defined.

(** X: [parseSignatureHeader] returns [null] for a missing or empty header,
    and never returns an empty [ts] or [v1]. *)
Theorem signature_header_values_nonempty (h : option string) (ts v1 : string) :
  parseSignatureHeader h = Some (ts, v1) ->
  (exists s, h = Some s /\ s <> EmptyString) /\ ts <> EmptyString /\ v1 <> EmptyString.
Proof.
  destruct h as [s|]; unfold parseSignatureHeader; [|discriminate].
  destruct (String.eqb_spec s EmptyString) as [_|Hs]; [discriminate|].
  cbv zeta.
  destruct (lookupLast "ts" _) as [a|]; [|discriminate].
  destruct (lookupLast "v1" _) as [b|]; [|discriminate].
  unfold truthyString.
  destruct (String.eqb_spec a EmptyString) as [_|Ea]; [discriminate|].
  destruct (String.eqb_spec b EmptyString) as [_|Eb]; [discriminate|].
  cbn; intros H; injection H as <- <-.
  split; [exists s; split; [reflexivity | exact Hs] | split; assumption].
Qed.

Lemma signature_header_values_nonempty_witness :
  (exists s, Some "ts=9,v1=ab"%string = Some s /\ s <> EmptyString)
  /\ "9"%string <> EmptyString /\ "ab"%string <> EmptyString.
Proof.
  exact (signature_header_values_nonempty (Some "ts=9,v1=ab"%string) "9" "ab" eq_refl).
Defined.

End SignatureHeader.

Lemma lookup_assign_same (key : string) (v : Inventory.InventorySlot) (inv : Inventory.Inventory) :
  Inventory.lookup key (Inventory.assign key v inv) = Some v.
Proof.
  induction inv as [|[k x] r IH]; cbn; [rewrite String.eqb_refl; reflexivity|].
  destruct (String.eqb k key) eqn:E; cbn; rewrite E; [reflexivity | exact IH].
Qed.

Lemma lookup_assign_other (key k' : string) (v : Inventory.InventorySlot) (inv : Inventory.Inventory) :
  k' <> key -> Inventory.lookup k' (Inventory.assign key v inv) = Inventory.lookup k' inv.
Proof.
  intros Hne; induction inv as [|[k x] r IH]; cbn.
  - destruct (String.eqb_spec key k') as [->|_]; [contradiction|reflexivity].
  - destruct (String.eqb_spec k key) as [->|_]; cbn.
    + destruct (String.eqb_spec key k') as [->|_]; [contradiction|reflexivity].
    + destruct (String.eqb k k'); [reflexivity | exact IH].
Qed.

Lemma assign_keys (key : string) (v : Inventory.InventorySlot) (inv : Inventory.Inventory) :
  Inventory.lookup key inv <> None -> map fst (Inventory.assign key v inv) = map fst inv.
Proof.
  induction inv as [|[k x] r IH]; cbn; [contradiction|].
  destruct (String.eqb_spec k key); cbn; [reflexivity|].
  intros H; rewrite (IH H); reflexivity.
Qed.

Lemma totalStock_assign (key : string) (c v : Inventory.InventorySlot) (inv : Inventory.Inventory) :
  Inventory.lookup key inv = Some c ->
  Inventory.totalStock (Inventory.assign key v inv)
  = Inventory.totalStock inv - Inventory.amount c + Inventory.amount v.
Proof.
  unfold Inventory.totalStock.
  induction inv as [|[k x] r IH]; cbn [Inventory.lookup Inventory.assign]; [discriminate|].
  destruct (String.eqb_spec k key); cbn [fold_right snd].
  - intros H; injection H as ->; lia.
  - intros H; rewrite (IH H); lia.
Qed.

Lemma lookup_Forall (P : string * Inventory.InventorySlot -> Prop) key inv c :
  Forall P inv -> Inventory.lookup key inv = Some c -> exists k, P (k, c).
Proof.
  intros F; induction F as [|[k x] r Hx F IH]; cbn; [discriminate|].
  destruct (String.eqb k key); [intros H; injection H as <-; exists k; exact Hx | exact IH].
Qed.

Lemma readInventory_Stored (inv : Inventory.Inventory) :
  Inventory.readInventory (Inventory.Stored inv) = (inv, Inventory.Stored inv).
Proof. reflexivity. Qed.

Lemma readInventory_unstored (f : Inventory.InventoryFile) :
  (forall inv, f <> Inventory.Stored inv) ->
  Inventory.readInventory f = (Inventory.DEFAULT_INVENTORY, Inventory.Stored Inventory.DEFAULT_INVENTORY).
Proof.
  intros H; destruct f as [| |inv]; [reflexivity | reflexivity | destruct (H inv eq_refl)].
Qed.

Lemma decrementSlot_in_range (slot : Z) (f : Inventory.InventoryFile) :
  0 <= slot <= 9 ->
  Inventory.decrementSlot slot f =
  (let (inventory, f1) := Inventory.readInventory f in
   let key := numberToString slot in
   let current := match Inventory.lookup key inventory with Some c => c | None => Inventory.emptySlot end in
   if Inventory.amount current <=? 0 then (inl Inventory.OutOfStock, f1)
   else
     let updated :=
       Inventory.assign key (Inventory.mkInventorySlot (Inventory.description current)
                               (Inventory.amount current - 1) (Inventory.avg_unit_price current)) inventory in
     (inr updated, Inventory.writeInventory updated f1)).
Proof.
  intros Hs; unfold Inventory.decrementSlot.
  replace ((slot <? 0) || (9 <? slot)) with false
    by (symmetry; apply orb_false_iff; split; apply Z.ltb_ge; lia).
  reflexivity.
Qed.

(** X: [decrementSlot] rejects a slot outside 0-9 with "Invalid slot"
    without reading or writing the inventory file. *)
Theorem decrementSlot_rejects_out_of_range (slot : Z) (f : Inventory.InventoryFile) :
  slot < 0 \/ 9 < slot -> Inventory.decrementSlot slot f = (inl Inventory.InvalidSlot, f).
Proof.
  intros Hs; unfold Inventory.decrementSlot.
  replace ((slot <? 0) || (9 <? slot)) with true
    by (symmetry; apply orb_true_iff; destruct Hs; [left | right]; apply Z.ltb_lt; lia).
  reflexivity.
Qed.

Lemma decrementSlot_rejects_out_of_range_witness :
  Inventory.decrementSlot 10 Inventory.Missing = (inl Inventory.InvalidSlot, Inventory.Missing).
Proof. exact (decrementSlot_rejects_out_of_range 10 Inventory.Missing ltac:(lia)). Defined.

(** X: on a missing or unreadable inventory file, [decrementSlot] of a
    valid slot fails with "Out of stock" and leaves the file holding the
    default inventory. *)
Theorem decrementSlot_resets_broken_file (slot : Z) (f : Inventory.InventoryFile) :
  0 <= slot <= 9 -> (forall inv, f <> Inventory.Stored inv) ->
  Inventory.decrementSlot slot f = (inl Inventory.OutOfStock, Inventory.Stored Inventory.DEFAULT_INVENTORY).
Proof.
  intros Hs Hf; rewrite (decrementSlot_in_range slot f Hs), (readInventory_unstored f Hf).
  cbv zeta.
  destruct (Inventory.lookup (numberToString slot) Inventory.DEFAULT_INVENTORY) as [c|] eqn:E;
    [|reflexivity].
  assert (Hc : Inventory.amount c = 0).
  { assert (F : Forall (fun e => Inventory.amount (snd e) = 0) Inventory.DEFAULT_INVENTORY)
      by (cbn; repeat constructor).
    destruct (lookup_Forall _ _ _ _ F E) as [k Hk]; exact Hk. }
  rewrite Hc; reflexivity.
Qed.

Lemma decrementSlot_resets_broken_file_witness :
  Inventory.decrementSlot 4 Inventory.Unparsable
  = (inl Inventory.OutOfStock, Inventory.Stored Inventory.DEFAULT_INVENTORY).
Proof.
  exact (decrementSlot_resets_broken_file 4 Inventory.Unparsable ltac:(lia) ltac:(intros inv; discriminate)).
Defined.

(** X: [decrementSlot] of a valid slot that is absent from the stored
    inventory or holds no item fails with "Out of stock" and leaves the file
    as it was. *)
Theorem decrementSlot_empty_slot (slot : Z) (inv : Inventory.Inventory) :
  0 <= slot <= 9 ->
  match Inventory.lookup (numberToString slot) inv with
  | Some c => Inventory.amount c <= 0
  | None => True
  end ->
  Inventory.decrementSlot slot (Inventory.Stored inv) = (inl Inventory.OutOfStock, Inventory.Stored inv).
Proof.
  intros Hs Hc; rewrite (decrementSlot_in_range slot _ Hs), readInventory_Stored; cbv zeta.
  destruct (Inventory.lookup (numberToString slot) inv) as [c|]; [|reflexivity].
  replace (Inventory.amount c <=? 0) with true by (symmetry; apply Z.leb_le; exact Hc).
  reflexivity.
Qed.

Lemma decrementSlot_empty_slot_witness :
  Inventory.decrementSlot 2 (Inventory.Stored [("2"%string, Inventory.mkInventorySlot "Cola" 0 None)])
  = (inl Inventory.OutOfStock, Inventory.Stored [("2"%string, Inventory.mkInventorySlot "Cola" 0 None)]).
Proof. exact (decrementSlot_empty_slot 2 [("2"%string, Inventory.mkInventorySlot "Cola" 0 None)]
                 ltac:(lia) ltac:(cbn; lia)). Defined.

(** X: [decrementSlot] of a valid slot holding items writes back and
    returns the same inventory with that slot's amount lowered by one and
    its description and average price kept; every other slot is unchanged,
    no slot is added or removed, and the total stock drops by exactly one. *)
Theorem decrementSlot_takes_one_item (slot : Z) (inv : Inventory.Inventory) (c : Inventory.InventorySlot) :
  0 <= slot <= 9 ->
  Inventory.lookup (numberToString slot) inv = Some c -> 0 < Inventory.amount c ->
  exists updated,
    Inventory.decrementSlot slot (Inventory.Stored inv) = (inr updated, Inventory.Stored updated)
    /\ Inventory.lookup (numberToString slot) updated
       = Some (Inventory.mkInventorySlot (Inventory.description c) (Inventory.amount c - 1)
                 (Inventory.avg_unit_price c))
    /\ (forall k, k <> numberToString slot -> Inventory.lookup k updated = Inventory.lookup k inv)
    /\ map fst updated = map fst inv
    /\ Inventory.totalStock updated = Inventory.totalStock inv - 1.
Proof.
  intros Hs Hl Ha.
  rewrite (decrementSlot_in_range slot _ Hs), readInventory_Stored; cbv zeta.
  rewrite Hl.
  replace (Inventory.amount c <=? 0) with false by (symmetry; apply Z.leb_gt; exact Ha).
  eexists; split; [reflexivity|].
  split; [apply lookup_assign_same|].
  split; [intros k Hk; apply lookup_assign_other, Hk|].
  split; [apply assign_keys; rewrite Hl; discriminate|].
  rewrite (totalStock_assign _ c _ _ Hl); cbn; lia.
Qed.

Lemma decrementSlot_takes_one_item_witness :
  exists updated,
    Inventory.decrementSlot 3 (Inventory.Stored [("3"%string, Inventory.mkInventorySlot "Cola" 2 None)])
    = (inr updated, Inventory.Stored updated)
    /\ Inventory.lookup (numberToString 3) updated = Some (Inventory.mkInventorySlot "Cola" (2 - 1) None)
    /\ (forall k, k <> numberToString 3 -> Inventory.lookup k updated
                  = Inventory.lookup k [("3"%string, Inventory.mkInventorySlot "Cola" 2 None)])
    /\ map fst updated = map fst [("3"%string, Inventory.mkInventorySlot "Cola" 2 None)]
    /\ Inventory.totalStock updated
       = Inventory.totalStock [("3"%string, Inventory.mkInventorySlot "Cola" 2 None)] - 1.
Proof.
  exact (decrementSlot_takes_one_item 3 [("3"%string, Inventory.mkInventorySlot "Cola" 2 None)]
           (Inventory.mkInventorySlot "Cola" 2 None)
           ltac:(lia) eq_refl ltac:(cbn; lia)).
Defined.


(** The reply of the dispense tool names the slot's description, or
    [Slot <n>] when the description is blank. *)
Lemma dispenseTool_in_stock (sid : SessionId) (productName : string) (s : Z) (t : Z) (w : World)
    (inv : Inventory.Inventory) (c : Inventory.InventorySlot) :
  Inventory.lookup (numberToString s) inv = Some c -> 0 < Inventory.amount c ->
  dispenseTool sid productName (Some s) t w (Inventory.Stored inv)
  = let name :=
      if (0 <? String.length (trim (Inventory.description c)))%nat
      then Inventory.description c else ("Slot " ++ numberToString s)%string in
    let (r, w1) := dispense sid t w in
    match r with
    | Err e => (NotDispensed e, w1, Inventory.Stored inv)
    | Ok _ => (Dispensed name, w1, snd (Inventory.decrementSlot s (Inventory.Stored inv)))
    end.
Proof.
  intros Hl Ha; unfold dispenseTool; rewrite readInventory_Stored; cbv beta iota zeta.
  rewrite Hl.
  replace (Inventory.amount c <=? 0) with false by (symmetry; apply Z.leb_gt; exact Ha).
  reflexivity.
Qed.

(** X: when the requested slot is absent or empty in the inventory as read
    (a missing or unreadable file reads as the all-empty default), the
    dispense tool answers "Selected slot is out of stock." and leaves the
    machine state untouched: nothing is dispensed. *)
Theorem dispenseTool_refuses_empty_slot (sid : SessionId) (productName : string) (s t : Z)
    (w : World) (f : Inventory.InventoryFile) :
  match Inventory.lookup (numberToString s) (fst (Inventory.readInventory f)) with
  | Some c => Inventory.amount c <= 0
  | None => True
  end ->
  dispenseTool sid productName (Some s) t w f = (SlotOutOfStock, w, snd (Inventory.readInventory f)).
Proof.
  unfold dispenseTool; destruct (Inventory.readInventory f) as [inv f1]; cbn [fst snd].
  destruct (Inventory.lookup (numberToString s) inv) as [c|]; [|reflexivity].
  intros Hc; replace (Inventory.amount c <=? 0) with true by (symmetry; apply Z.leb_le; exact Hc).
  reflexivity.
Qed.

Lemma dispenseTool_refuses_empty_slot_witness :
  dispenseTool 1%nat "Cola" (Some 3) 1600 reclaimedWorld Inventory.Missing
  = (SlotOutOfStock, reclaimedWorld, snd (Inventory.readInventory Inventory.Missing)).
Proof.
  exact (dispenseTool_refuses_empty_slot 1%nat "Cola" 3 1600 reclaimedWorld Inventory.Missing
           ltac:(cbn; lia)).
Defined.

(** X: for a slot 0-9 holding items, the dispense tool either reports the
    failure of [dispense] and leaves the inventory file as it was, or
    dispenses, names the slot's description (or [Slot <n>] when it is
    blank) and takes exactly one item out of that slot. *)
Theorem dispenseTool_decrements_dispensed_slot (sid : SessionId) (productName : string) (s t : Z)
    (w : World) (inv : Inventory.Inventory) (c : Inventory.InventorySlot) :
  0 <= s <= 9 ->
  Inventory.lookup (numberToString s) inv = Some c -> 0 < Inventory.amount c ->
  let '(reply, w1, f2) := dispenseTool sid productName (Some s) t w (Inventory.Stored inv) in
  w1 = snd (dispense sid t w)
  /\ match fst (dispense sid t w) with
     | Err e => reply = NotDispensed e /\ f2 = Inventory.Stored inv
     | Ok _ =>
         reply = Dispensed (if (0 <? String.length (trim (Inventory.description c)))%nat
                            then Inventory.description c else ("Slot " ++ numberToString s)%string)
         /\ f2 = Inventory.Stored
                   (Inventory.assign (numberToString s)
                      (Inventory.mkInventorySlot (Inventory.description c) (Inventory.amount c - 1)
                         (Inventory.avg_unit_price c)) inv)
     end.
Proof.
  intros Hs Hl Ha; rewrite (dispenseTool_in_stock sid productName s t w inv c Hl Ha); cbv zeta.
  destruct (dispense sid t w) as [[u|e] w1]; cbn [fst snd]; [|split; split; reflexivity].
  rewrite (decrementSlot_in_range s _ Hs), readInventory_Stored; cbv beta iota zeta.
  rewrite Hl.
  replace (Inventory.amount c <=? 0) with false by (symmetry; apply Z.leb_gt; exact Ha).
  split; split; reflexivity.
Qed.

Lemma dispenseTool_decrements_dispensed_slot_witness :
  let '(reply, w1, f2) :=
    dispenseTool 1%nat "Cola" (Some 3) 1600 reclaimedWorld
      (Inventory.Stored [("3"%string, Inventory.mkInventorySlot "Cola" 2 None)]) in
  w1 = snd (dispense 1%nat 1600 reclaimedWorld)
  /\ match fst (dispense 1%nat 1600 reclaimedWorld) with
     | Err e => reply = NotDispensed e
                /\ f2 = Inventory.Stored [("3"%string, Inventory.mkInventorySlot "Cola" 2 None)]
     | Ok _ =>
         reply = Dispensed (if (0 <? String.length (trim "Cola"))%nat then "Cola"
                            else ("Slot " ++ numberToString 3)%string)
         /\ f2 = Inventory.Stored
                   (Inventory.assign (numberToString 3) (Inventory.mkInventorySlot "Cola" (2 - 1) None)
                      [("3"%string, Inventory.mkInventorySlot "Cola" 2 None)])
     end.
Proof.
  exact (dispenseTool_decrements_dispensed_slot 1%nat "Cola" 3 1600 reclaimedWorld
           [("3"%string, Inventory.mkInventorySlot "Cola" 2 None)] (Inventory.mkInventorySlot "Cola" 2 None)
           ltac:(lia) eq_refl ltac:(cbn; lia)).
Defined.

(** X: a slot outside 0-9 that the stored inventory holds with items is
    dispensed by the dispense tool once [dispense] succeeds, but its stock is
    never decremented: the error of [decrementSlot] is swallowed and the
    file is left as it was. *)
Theorem dispenseTool_out_of_range_slot_keeps_stock (sid : SessionId) (productName : string) (s t : Z)
    (w : World) (inv : Inventory.Inventory) (c : Inventory.InventorySlot) :
  s < 0 \/ 9 < s ->
  Inventory.lookup (numberToString s) inv = Some c -> 0 < Inventory.amount c ->
  isOk (fst (dispense sid t w)) = true ->
  dispenseTool sid productName (Some s) t w (Inventory.Stored inv)
  = (Dispensed (if (0 <? String.length (trim (Inventory.description c)))%nat
                then Inventory.description c else ("Slot " ++ numberToString s)%string),
     snd (dispense sid t w), Inventory.Stored inv).
Proof.
  intros Hs Hl Ha.
  rewrite (dispenseTool_in_stock sid productName s t w inv c Hl Ha); cbv zeta.
  destruct (dispense sid t w) as [[u|e] w1]; cbn [fst snd isOk]; [|discriminate].
  intros _; rewrite (decrementSlot_rejects_out_of_range s _ Hs); reflexivity.
Qed.

Lemma dispenseTool_out_of_range_slot_keeps_stock_witness :
  dispenseTool 1%nat "Cola" (Some 10) 1600 reclaimedWorld
    (Inventory.Stored [("10"%string, Inventory.mkInventorySlot "Cola" 2 None)])
  = (Dispensed (if (0 <? String.length (trim "Cola"))%nat then "Cola"
                else ("Slot " ++ numberToString 10)%string),
     snd (dispense 1%nat 1600 reclaimedWorld),
     Inventory.Stored [("10"%string, Inventory.mkInventorySlot "Cola" 2 None)]).
Proof.
  exact (dispenseTool_out_of_range_slot_keeps_stock 1%nat "Cola" 10 1600 reclaimedWorld
           [("10"%string, Inventory.mkInventorySlot "Cola" 2 None)] (Inventory.mkInventorySlot "Cola" 2 None)
           ltac:(lia) eq_refl ltac:(cbn; lia) eq_refl).
Defined.
